(** * Class360 dubbing pipeline: a shallow embedding of
    [src/backend/dub_video.py] (and its sibling [dub_to_english.py]).

    Python floats are modelled by exact rationals [Q]; ffmpeg, ffprobe,
    pydub, gTTS, Coqui, MMS and Whisper are external collaborators and are
    modelled by their observable effect or as Section variables. *)

From Stdlib Require Import QArith Qround Qabs Lqa ZArith Lia List Bool String Ascii Sorted.
From stdpp Require Import base gmap strings pretty.
Import ListNotations.
Local Open Scope string_scope.
Local Open Scope Q_scope.

(* ------------------------------------------------------------------ *)
(** ** Python helpers *)

(** [float(x) <= 0] etc. on rationals, as booleans. *)
Definition qle (a b : Q) : bool := Qle_bool a b.
Definition qlt (a b : Q) : bool := negb (Qle_bool b a).

(** Python [min(a, b)] returns [a] unless [b < a]; [max(a, b)] returns [a]
    unless [b > a]. *)
Definition py_min (a b : Q) : Q := if qlt b a then b else a.
Definition py_max (a b : Q) : Q := if qlt a b then b else a.

(** Python [int(q)]: truncation toward zero. *)
Definition py_int (q : Q) : Z :=
  if qle 0 q then Qfloor q else (- Qfloor (- q))%Z.

(* ------------------------------------------------------------------ *)
(** ** Audio files produced by TTS and ffmpeg *)

(** An audio file is known by the duration of the clip it was produced
    from and the chain of ffmpeg [atempo] factors applied to it since
    (empty for a file written by a TTS backend or copied unchanged).
    ffmpeg's [atempo=f] keeps the pitch and divides the duration by [f]. *)
Record Audio := mkAudio { a_len : Q; a_tempo : list Q }.

Definition tempo_product (fs : list Q) : Q := fold_right Qmult 1 fs.

Definition audio_duration (a : Audio) : Q := a_len a / tempo_product (a_tempo a).

(** The effect of [ffmpeg -i in -filter:a atempo=f1,atempo=f2,... out], as
    a nominal duration: [audio_duration] of the result is the input's
    duration divided by the product of the factors.  The file ffmpeg
    actually writes is rounded to whole samples and frames by the filter,
    so its measured length only approximates this value (see
    [atempo_accurate]). *)
Definition apply_atempo (fs : list Q) (a : Audio) : Audio :=
  mkAudio (a_len a) (a_tempo a ++ fs)%list.

(** Paths of the temporary workspace used by [create_dub_track]:
    [tts_{lang}_{i:04d}_raw.wav] and [tts_{lang}_{i:04d}.wav]. *)
Inductive Path :=
| RawClip (lang : string) (i : nat)
| AdjClip (lang : string) (i : nat).

#[global] Instance Path_eq_dec : EqDecision Path.
Proof. solve_decision. Defined.

(** The temporary directory: which paths exist, with what content. *)
Definition FS := Path -> option Audio.

Definition fs_empty : FS := fun _ => None.

Definition fs_write (fs : FS) (p : Path) (a : Audio) : FS :=
  fun q => if decide (q = p) then Some a else fs q.

Definition exists_ (fs : FS) (p : Path) : bool :=
  match fs p with Some _ => true | None => false end.

(* ------------------------------------------------------------------ *)
(** ** TimingReconciler: [adjust_audio_speed] *)

Section Reconciler.

(** [ffprobe_fails a]: ffprobe does not print a number for [a], so that
    [float(result.stdout.strip())] raises.  Otherwise it prints the
    duration of [a]. *)
Variable ffprobe_fails : Audio -> bool.
(** [ffmpeg_fails a f]: the ffmpeg run applying filter chain [f] to [a]
    exits with an error and writes no output.  [subprocess.run] does not
    raise in that case. *)
Variable ffmpeg_fails : Audio -> list Q -> bool.

(** The [atempo] filter chain built from [speed] (lines 116-119). *)
Definition atempo_chain (speed : Q) : list Q :=
  if qlt 2 speed then [speed / 2; 2] else [speed].

(** The clamped speed (lines 113-114). *)
Definition clamp_speed (current target : Q) : Q :=
  py_max (1 # 2) (py_min (5 # 2) (current / target)).

(** [adjust_audio_speed(input_path, output_path, target_duration)].
    [None] means an exception escapes the function: this happens only when
    [shutil.copy] in the [except] branch raises because the input is
    missing. *)
Definition adjust_audio_speed (fs : FS) (input output : Path)
    (target_duration : Q) : option FS :=
  match fs input with
  | None => None
  | Some a =>
      if ffprobe_fails a then Some (fs_write fs output a)
      else
        let current_duration := audio_duration a in
        if qle current_duration 0 || qle target_duration 0 then
          Some (fs_write fs output a)
        else
          let speed := clamp_speed current_duration target_duration in
          let filter := atempo_chain speed in
          if ffmpeg_fails a filter then Some fs
          else Some (fs_write fs output (apply_atempo filter a))
  end.

(** The clip [create_dub_track] keeps for the segment (lines 387-394):
    the adjusted file if it exists, else the raw one. *)
Definition reconciled_clip (fs : FS) (raw adj : Path) (target : Q)
    : option Audio :=
  match adjust_audio_speed fs raw adj target with
  | None => None
  | Some fs' => match fs' adj with Some a => Some a | None => fs' raw end
  end.

End Reconciler.

(* ------------------------------------------------------------------ *)
(** ** SegmentSanitizer: [clean_translation_text] *)

(** Python [str] values are modelled by their UTF-8 bytes.  The regular
    expressions of [clean_translation_text] only name ASCII characters and
    the music note U+266A, whose encoding [E2 99 AA] never occurs inside
    another character's encoding, so matching on bytes finds the same
    spans.  Character classes ([\s], [str.isspace], [str.isupper],
    [str.upper]) are modelled on their ASCII members. *)
Module Sanitizer.
Local Open Scope nat_scope.

Definition code (c : ascii) : nat := nat_of_ascii c.

(** [\s] and [str.isspace] on ASCII: [\t \n \v \f \r], [\x1c]-[\x1f], space. *)
Definition is_space (c : ascii) : bool :=
  let n := code c in
  ((9 <=? n) && (n <=? 13)) || ((28 <=? n) && (n <=? 32)).

Definition is_letter (c : ascii) : bool :=
  let n := code c in
  ((65 <=? n) && (n <=? 90)) || ((97 <=? n) && (n <=? 122)).

Definition is_lower (c : ascii) : bool :=
  let n := code c in (97 <=? n) && (n <=? 122).

Definition is_upper (c : ascii) : bool :=
  let n := code c in (65 <=? n) && (n <=? 90).

Definition to_upper (c : ascii) : ascii :=
  if is_lower c then ascii_of_nat (code c - 32) else c.

Definition is_punct (c : ascii) : bool :=
  match c with "," | "." | "!" | "?" => true | _ => false end%char.

Definition newline : ascii := ascii_of_nat 10.

(** Strip a literal prefix. *)
Fixpoint strip_prefix (p s : string) : option string :=
  match p, s with
  | EmptyString, _ => Some s
  | String a p', String b s' =>
      if Ascii.eqb a b then strip_prefix p' s' else None
  | String _ _, EmptyString => None
  end.

(** [<\|[a-z]+\|>] (with [re.IGNORECASE]) matched at the front of [s]:
    the rest of [s] after the match. *)
Fixpoint letters_then_close (s : string) : option string :=
  match s with
  | String c s' =>
      if is_letter c then
        match letters_then_close s' with
        | Some r => Some r
        | None => strip_prefix "|>" s'
        end
      else None
  | EmptyString => None
  end.

Definition match_tag (s : string) : option string :=
  match strip_prefix "<|" s with
  | Some r => letters_then_close r
  | None => None
  end.

(** The lazy [.*?] followed by the closing delimiter [cl]: the rest after
    the first [cl], provided no newline comes before it. *)
Fixpoint find_close (cl s : string) : option string :=
  match strip_prefix cl s with
  | Some r => Some r
  | None =>
      match s with
      | EmptyString => None
      | String c s' => if Ascii.eqb c newline then None else find_close cl s'
      end
  end.

Definition match_span (op cl s : string) : option string :=
  match strip_prefix op s with
  | Some r => find_close cl r
  | None => None
  end.

(** [re.sub(pattern, '', s)] for a pattern that never matches the empty
    string, given the pattern as a matcher returning the rest of the
    string after a match at the front.  [fuel] bounds the number of
    characters scanned. *)
Fixpoint sub_empty (m : string -> option string) (fuel : nat) (s : string)
    : string :=
  match fuel with
  | O => s
  | S fuel' =>
      match s with
      | EmptyString => EmptyString
      | String c s' =>
          match m s with
          | Some r => sub_empty m fuel' r
          | None => String c (sub_empty m fuel' s')
          end
      end
  end.

Definition re_remove (m : string -> option string) (s : string) : string :=
  sub_empty m (S (String.length s)) s.

Definition music_note : string :=
  String (ascii_of_nat 226) (String (ascii_of_nat 153)
    (String (ascii_of_nat 170) EmptyString)).

(** The artifact patterns of lines 80-85, applied in order. *)
Definition remove_artifacts (s : string) : string :=
  let s := re_remove match_tag s in
  let s := re_remove (match_span "[" "]") s in
  let s := re_remove (match_span "(" ")") s in
  re_remove (match_span music_note music_note) s.

Fixpoint drop_spaces (s : string) : string :=
  match s with
  | String c s' => if is_space c then drop_spaces s' else s
  | EmptyString => EmptyString
  end.

(** [re.sub(r'\s+', ' ', s)]; [in_run] tells whether the previous
    character was whitespace already replaced by the single space. *)
Fixpoint collapse_go (in_run : bool) (s : string) : string :=
  match s with
  | EmptyString => EmptyString
  | String c s' =>
      if is_space c then
        if in_run then collapse_go true s' else String " " (collapse_go true s')
      else String c (collapse_go false s')
  end.

Definition collapse_spaces (s : string) : string := collapse_go false s.

Fixpoint drop_punct (s : string) : string :=
  match s with
  | String c s' => if is_punct c then drop_punct s' else s
  | EmptyString => EmptyString
  end.

(** [re.sub(r'^\s*[,.!?]+', '', s)]: one match at most, at the start. *)
Definition drop_leading_punct (s : string) : string :=
  let r := drop_spaces s in
  match r with
  | String c _ => if is_punct c then drop_punct r else s
  | EmptyString => s
  end.

Fixpoint rev_string (s : string) : string :=
  match s with
  | EmptyString => EmptyString
  | String c s' => append (rev_string s') (String c EmptyString)
  end.

(** [str.strip()]. *)
Definition py_strip (s : string) : string :=
  rev_string (drop_spaces (rev_string (drop_spaces s))).

(** [if text and not text[0].isupper(): text = text[0].upper() + text[1:]]. *)
Definition capitalize_first (s : string) : string :=
  match s with
  | String c s' => if is_upper c then s else String (to_upper c) s'
  | EmptyString => EmptyString
  end.

(** [clean_translation_text(text)] (lines 74-99); the empty string is
    Python's falsy input. *)
Definition clean_translation_text (text : string) : string :=
  match text with
  | EmptyString => EmptyString
  | _ =>
      let t := remove_artifacts text in
      let t := collapse_spaces t in
      let t := drop_leading_punct t in
      let t := py_strip t in
      capitalize_first t
  end.

End Sanitizer.

(* ------------------------------------------------------------------ *)
(** ** TrackCompositor: [merge_with_timing] and [merge_with_ffmpeg] *)

(** A pydub [AudioSegment] is modelled as its frames at millisecond
    resolution (pydub positions and lengths are in milliseconds); a frame
    is a signed 16-bit sample value. *)
Definition Frames := list Z.

(** [AudioSegment.silent(duration=n)]. *)
Definition silent (n : nat) : Frames := repeat 0%Z n.

(** [audioop.add] on 16-bit samples saturates on overflow. *)
Definition audioop_add (x y : Z) : Z := Z.max (-32768) (Z.min 32767 (x + y)).

Fixpoint mix (xs ys : Frames) : Frames :=
  match xs, ys with
  | x :: xs', y :: ys' => audioop_add x y :: mix xs' ys'
  | _, _ => []
  end.

(** [base.overlay(seg, position=pos)] (pydub, [times = 1]): the part of
    [seg] that fits after [pos] is mixed in; the result keeps the length
    of [base]. *)
Definition overlay (base : Frames) (pos : nat) (seg : Frames) : Frames :=
  let rest := skipn pos base in
  let seg' := firstn (length rest) seg in
  (firstn pos base ++ mix (firstn (length seg') rest) seg'
    ++ skipn (length seg') rest)%list.

(** An entry of [tts_segments] (lines 389-395). *)
Record TtsSeg := mkTtsSeg {
  ts_index : nat; ts_start : Q; ts_end : Q; ts_text : string; ts_file : Path }.

(** The merged track file [merged_{lang}.wav]. *)
Inductive TrackFile :=
| PydubWav (frames : Frames)                  (* exported by pydub *)
| ConcatWav (clips : list Audio) (dur : Q)    (* ffmpeg concat, apad, -t dur *)
| SilentWav (dur : Q).                        (* ffmpeg anullsrc, -t dur *)

(** Duration in seconds of a merged track: pydub's length in ms of the
    exported buffer, or the duration requested from ffmpeg with [-t]. *)
Definition track_duration (t : TrackFile) : Q :=
  match t with
  | PydubWav fr => inject_Z (Z.of_nat (length fr)) / 1000
  | ConcatWav _ d | SilentWav d => d
  end.


(** Millisecond position [int(x * 1000)]; segment starts are non-negative
    (Whisper timestamps), where [Z.to_nat] loses nothing. *)
Definition to_ms (x : Q) : nat := Z.to_nat (py_int (x * 1000)).

Section Compositor.

(** Whether [from pydub import AudioSegment] succeeds. *)
Variable pydub_available : bool.
(** [AudioSegment.from_file]: [None] when decoding raises. *)
Variable decode : Audio -> option Frames.
(** Whether ffmpeg's concat demuxer produces [concat.wav]. *)
Variable concat_ok : bool.

(** The loop of lines 316-325. *)
Fixpoint overlay_all (fs : FS) (base : Frames) (segs : list TtsSeg) : Frames :=
  match segs with
  | [] => base
  | s :: rest =>
      match fs (ts_file s) with
      | None => overlay_all fs base rest
      | Some a =>
          match decode a with
          | None => overlay_all fs base rest
          | Some audio => overlay_all fs (overlay base (to_ms (ts_start s)) audio) rest
          end
      end
  end.

(** Files listed in [concat.txt], in list order. *)
Fixpoint existing_files (fs : FS) (segs : list TtsSeg) : list Audio :=
  match segs with
  | [] => []
  | s :: rest =>
      match fs (ts_file s) with
      | Some a => a :: existing_files fs rest
      | None => existing_files fs rest
      end
  end.

(** [merge_with_ffmpeg] (lines 336-359): the written track, if any. *)
Definition merge_with_ffmpeg (fs : FS) (segs : list TtsSeg) (total : Q)
    : option TrackFile :=
  match existing_files fs segs with
  | [] => None
  | clips => if concat_ok then Some (ConcatWav clips total) else None
  end.

(** [merge_with_timing] (lines 309-334): the written track, if any. *)
Definition merge_with_timing (fs : FS) (segs : list TtsSeg) (total : Q)
    : option TrackFile :=
  if pydub_available then
    let base := silent (Z.to_nat (py_int (total * 1000))) in
    Some (PydubWav (overlay_all fs base segs))
  else merge_with_ffmpeg fs segs total.

End Compositor.

(* ------------------------------------------------------------------ *)
(** ** ModelCache: [_tts_models] and [_translation_models] *)

(** A loaded model (TTS model, tokenizer, or Marian tokenizer/model pair)
    is known by an identifier. *)
Definition Handle := nat.

(** A load attempt, recorded with the cache key it fills. *)
Inductive LoadKey := TtsKey (k : string) | MtKey (k : string).

#[global] Instance LoadKey_eq_dec : EqDecision LoadKey.
Proof. solve_decision. Defined.

(** The two module-level dictionaries.  A key that is absent has never
    been attempted; a key bound to [None] is the failed-load sentinel. *)
Record Caches := mkCaches {
  tts_models : gmap string (option Handle);
  translation_models : gmap string (option Handle);
  load_log : list LoadKey }.

Definition caches_init : Caches := mkCaches ∅ ∅ [].

(** [dict.get(key)]: missing keys and the stored [None] both give [None]. *)
Definition dict_get (m : gmap string (option Handle)) (k : string) : option Handle :=
  match m !! k with Some v => v | None => None end.

Definition set_tts (st : Caches) (k : string) (v : option Handle) : Caches :=
  mkCaches (<[k := v]> (tts_models st)) (translation_models st) (load_log st).

Definition set_mt (st : Caches) (k : string) (v : option Handle) : Caches :=
  mkCaches (tts_models st) (<[k := v]> (translation_models st)) (load_log st).

Definition log_load (st : Caches) (k : LoadKey) : Caches :=
  mkCaches (tts_models st) (translation_models st) (load_log st ++ [k])%list.

(** The MMS-TTS checkpoints of lines 152, 166 and 180. *)
Definition mms_model_name (lang : string) : option string :=
  if String.eqb lang "ml" then Some "facebook/mms-tts-mal"
  else if String.eqb lang "hi" then Some "facebook/mms-tts-hin"
  else if String.eqb lang "ta" then Some "facebook/mms-tts-tam"
  else None.

(** [lang_map] of [get_translation_model] (lines 248-255): entries mapped
    to [None] and missing entries both give [None]. *)
Definition marian_model_name (src tgt : string) : option string :=
  if String.eqb src "en" then
    if String.eqb tgt "ml" then Some "Helsinki-NLP/opus-mt-en-ml"
    else if String.eqb tgt "hi" then Some "Helsinki-NLP/opus-mt-en-hi"
    else if String.eqb tgt "ta" then Some "Helsinki-NLP/opus-mt-en-ta"
    else None
  else None.

Section ModelCache.

(** [TTS('tts_models/en/ljspeech/vits', ...)]: [None] when it raises. *)
Variable coqui_load : option Handle.
(** [AutoTokenizer.from_pretrained] and [VitsModel.from_pretrained]. *)
Variable mms_tokenizer_load : string -> option Handle.
Variable mms_model_load : string -> option Handle.
(** [MarianTokenizer.from_pretrained] then [MarianMTModel.from_pretrained]:
    [None] when either raises. *)
Variable marian_load : string -> option Handle.

(** [get_tts_model_for_language(language)] (lines 128-189). *)
Definition get_tts_model_for_language (st : Caches) (language : string)
    : option Handle * Caches :=
  if String.eqb language "en" then
    let k := "en_tts" in
    let st' :=
      match tts_models st !! k with
      | Some _ => st
      | None => set_tts (log_load st (TtsKey k)) k coqui_load
      end in
    (dict_get (tts_models st') k, st')
  else
    match mms_model_name language with
    | None => (None, st)
    | Some name =>
        let k := language +:+ "_tts" in
        let st' :=
          match tts_models st !! k with
          | Some _ => st
          | None =>
              let st1 := log_load st (TtsKey k) in
              match mms_tokenizer_load name with
              | None => set_tts st1 k None
              | Some tok =>
                  let st2 := set_tts st1 (language +:+ "_tokenizer") (Some tok) in
                  set_tts st2 k (mms_model_load name)
              end
          end in
        (dict_get (tts_models st') k, st')
    end.

(** [get_translation_model(src_lang, tgt_lang)] (lines 238-271). *)
Definition get_translation_model (st : Caches) (src tgt : string)
    : option Handle * Caches :=
  let k := src +:+ "_to_" +:+ tgt in
  let st' :=
    match translation_models st !! k with
    | Some _ => st
    | None =>
        match marian_model_name src tgt with
        | Some name => set_mt (log_load st (MtKey k)) k (marian_load name)
        | None => set_mt st k None
        end
    end in
  (dict_get (translation_models st') k, st').

(** A sequence of cache requests made during a run. *)
Inductive Request := TtsReq (lang : string) | MtReq (src tgt : string).

Definition serve (st : Caches) (r : Request) : option Handle * Caches :=
  match r with
  | TtsReq l => get_tts_model_for_language st l
  | MtReq s t => get_translation_model st s t
  end.

Fixpoint serve_all (st : Caches) (rs : list Request) : Caches :=
  match rs with
  | [] => st
  | r :: rs' => serve_all (snd (serve st r)) rs'
  end.

End ModelCache.

(* ------------------------------------------------------------------ *)
(** ** The pipeline of [dub_video.py] *)

(** A Whisper segment: [{'start', 'end', 'text', ...}]. *)
Record Segment := mkSeg { seg_start : Q; seg_end : Q; seg_text : string }.

(** The external collaborators a run talks to. *)
Record World := mkWorld {
  w_ffprobe_fails : Audio -> bool;
  w_ffmpeg_fails : Audio -> list Q -> bool;
  w_pydub : bool;
  w_decode : Audio -> option Frames;
  w_concat_ok : bool;
  (** [ffmpeg -f lavfi -i anullsrc ... -t total] writes its output. *)
  w_silent_ok : bool;
  w_coqui_load : option Handle;
  w_mms_tok_load : string -> option Handle;
  w_mms_model_load : string -> option Handle;
  w_marian_load : string -> option Handle;
  (** Speech backends: the written clip, [None] when the call raises. *)
  w_coqui_tts : Handle -> string -> option Audio;
  w_mms_tts : Handle -> Handle -> string -> option Audio;
  w_gtts : string -> string -> option Audio;
  (** Marian [generate] + [decode]: [None] when it raises. *)
  w_marian_translate : Handle -> string -> option string }.

(** [len(text.strip())]. *)
Definition stripped_len (s : string) : nat := String.length (Sanitizer.py_strip s).

Section Pipeline.

Variable w : World.

(** [generate_tts_with_model(text, output_path, language, model)]
    (lines 191-236): success flag and the workspace afterwards. *)
Definition generate_tts_with_model (st : Caches) (fs : FS) (text : string)
    (out : Path) (language : string) (model : option Handle) : bool * FS :=
  if (String.length text =? 0)%nat || (stripped_len text <? 2)%nat then (false, fs)
  else
    let r :=
      if String.eqb language "en" then
        match model with
        | Some m => w_coqui_tts w m text
        | None => w_gtts w "en" text
        end
      else if String.eqb language "ml" || String.eqb language "hi"
              || String.eqb language "ta" then
        match model, tts_models st !! (language +:+ "_tokenizer") with
        | Some m, Some tok =>
            (* the tokenizer key is only ever bound to a loaded tokenizer *)
            match tok with
            | Some t => w_mms_tts w m t text
            | None => None
            end
        | _, _ => w_gtts w language text
        end
      else w_gtts w language text in
    match r with
    | Some a => (true, fs_write fs out a)
    | None => (false, fs)
    end.

(** [translate_segments(segments, src_lang, tgt_lang, whisper_model,
    audio_path)] (lines 273-307) as called from [main], where
    [whisper_model] and [audio_path] are always given; [whisper_en] is
    the segments of Whisper's translate task. *)
Definition translate_segments (st : Caches) (whisper_en : list Segment)
    (segments : list Segment) (src tgt : string) : list Segment * Caches :=
  if String.eqb tgt "en" && negb (String.eqb src "en") then (whisper_en, st)
  else if String.eqb src "en" && negb (String.eqb tgt "en") then
    let (m, st') := get_translation_model (w_marian_load w) st "en" tgt in
    match m with
    | Some h =>
        (map (fun seg =>
           let text := Sanitizer.py_strip (seg_text seg) in
           if (String.length text =? 0)%nat then seg
           else match w_marian_translate w h text with
                | Some t => mkSeg (seg_start seg) (seg_end seg) t
                | None => seg
                end) segments, st')
    | None => (segments, st')
    end
  else (segments, st).

(** The loop body of [create_dub_track] (lines 370-395) for segment [i]:
    [None] when an exception escapes. *)
Definition dub_segment (lang : string) (model : option Handle) (st : Caches)
    (i : nat) (seg : Segment) (acc : FS * list TtsSeg) : option (FS * list TtsSeg) :=
  let (fs, out) := acc in
  let text := seg_text seg in
  if (String.length text =? 0)%nat || (stripped_len text <? 3)%nat then Some acc
  else
    let text := Sanitizer.clean_translation_text text in
    if (String.length text =? 0)%nat then Some acc
    else
      let raw := RawClip lang i in
      let adj := AdjClip lang i in
      let (ok, fs1) := generate_tts_with_model st fs text raw lang model in
      if ok && exists_ fs1 raw then
        match adjust_audio_speed (w_ffprobe_fails w) (w_ffmpeg_fails w) fs1 raw adj
                (seg_end seg - seg_start seg) with
        | None => None
        | Some fs2 =>
            let file := if exists_ fs2 adj then adj else raw in
            Some (fs2, (out ++ [mkTtsSeg i (seg_start seg) (seg_end seg) text file])%list)
        end
      else Some (fs1, out).

Fixpoint dub_segments (lang : string) (model : option Handle) (st : Caches)
    (i : nat) (segs : list Segment) (acc : FS * list TtsSeg)
    : option (FS * list TtsSeg) :=
  match segs with
  | [] => Some acc
  | seg :: rest =>
      match dub_segment lang model st i seg acc with
      | None => None
      | Some acc' => dub_segments lang model st (S i) rest acc'
      end
  end.

(** [create_dub_track(segments, target_lang, temp_dir, total_duration)]
    (lines 361-413): the merged track (if written), the workspace and the
    caches; [None] when an exception escapes. *)
Definition create_dub_track (st : Caches) (fs : FS) (segments : list Segment)
    (target_lang : string) (total : Q)
    : option (option TrackFile * FS * Caches) :=
  let (model, st1) :=
    get_tts_model_for_language (w_coqui_load w) (w_mms_tok_load w)
      (w_mms_model_load w) st target_lang in
  match dub_segments target_lang model st1 0 segments (fs, []) with
  | None => None
  | Some (fs', tts_segments) =>
      let merged :=
        match tts_segments with
        | [] => if w_silent_ok w then Some (SilentWav total) else None
        | _ => merge_with_timing (w_pydub w) (w_decode w) (w_concat_ok w)
                 fs' tts_segments total
        end in
      Some (merged, fs', st1)
  end.

End Pipeline.

(* ------------------------------------------------------------------ *)
(** ** DubPipelineOrchestrator: [main] of [dub_video.py] *)

Definition SUPPORTED_LANGUAGES : list string := ["en"; "ml"; "hi"; "ta"].

(** [LANGUAGE_NAMES.get(lang, lang)]. *)
Definition language_name (l : string) : string :=
  if String.eqb l "en" then "English"
  else if String.eqb l "ml" then "Malayalam"
  else if String.eqb l "hi" then "Hindi"
  else if String.eqb l "ta" then "Tamil"
  else l.

Definition mem (l : string) (xs : list string) : bool := existsb (String.eqb l) xs.

(** A UTF-8 string contains a code point of the block whose encodings
    start with [E0 b1] or [E0 b2]. *)
Fixpoint has_block (b1 b2 : nat) (s : string) : bool :=
  match s with
  | String c s' =>
      match s' with
      | String d _ =>
          ((nat_of_ascii c =? 224)%nat
             && ((nat_of_ascii d =? b1)%nat || (nat_of_ascii d =? b2)%nat))
          || has_block b1 b2 s'
      | EmptyString => false
      end
  | EmptyString => false
  end.

(** Python [set.add]: the set is kept as a duplicate-free list; its
    iteration order (hash order in Python) is not modelled. *)
Definition set_add (l : string) (xs : list string) : list string :=
  if mem l xs then xs else (xs ++ [l])%list.

(** [detect_mixed_languages(result)] (lines 415-440): Malayalam
    U+0D00-0D7F is [E0 B4 xx]/[E0 B5 xx], Devanagari U+0900-097F is
    [E0 A4 xx]/[E0 A5 xx], Tamil U+0B80-0BFF is [E0 AE xx]/[E0 AF xx]. *)
Definition detect_mixed_languages (detected : string) (segs : list Segment)
    : list string :=
  fold_left (fun langs seg =>
    let t := seg_text seg in
    let langs := if has_block 180 181 t then set_add "ml" langs else langs in
    let langs := if has_block 164 165 t then set_add "hi" langs else langs in
    if has_block 174 175 t then set_add "ta" langs else langs)
    segs [detected].

(** [s.split(',')]. *)
Fixpoint split_comma_go (cur : string) (s : string) : list string :=
  match s with
  | EmptyString => [cur]
  | String c s' =>
      if Ascii.eqb c ","%char then cur :: split_comma_go EmptyString s'
      else split_comma_go (cur +:+ String c EmptyString) s'
  end.

Definition split_comma (s : string) : list string := split_comma_go EmptyString s.

(** [[l.strip() for l in s.split(',') if l.strip()]]. *)
Definition parse_target_langs (s : string) : list string :=
  filter (fun l => negb (String.length l =? 0)%nat)
    (map Sanitizer.py_strip (split_comma s)).

Record Args := mkArgs {
  arg_target_langs : string; arg_all_dubs : bool; arg_embed_tracks : bool }.

(** What the run observes of the input video. *)
Record RunEnv := mkRunEnv {
  env_input_exists : bool;
  (** [extract_audio] produced [audio.wav]. *)
  env_extract_ok : bool;
  (** ffprobe's duration; [None] when [float(...)] raises. *)
  env_probe : option Q;
  (** [whisper.load_model] + [transcribe]: language and segments, [None]
      when an exception escapes. *)
  env_transcribe : option (string * list Segment);
  (** [transcribe(task='translate')]. *)
  env_translate_en : option (list Segment);
  (** [shutil.copy(audio_path, original_audio)] (line 575) returns. *)
  env_copy_ok : bool;
  (** The ffmpeg run of step 5 for the [i]-th track (lines 645-664)
      writes its video file. *)
  env_mux_ok : nat -> bool;
  (** [create_multi_audio_video] raises: its ffmpeg run failed and
      [result.stderr.decode()] meets bytes that are not UTF-8. *)
  env_embed_raises : bool;
  (** [open(manifest_path, 'w')] (line 683) succeeds: the output
      directory exists and is writable. *)
  env_manifest_ok : bool }.

Record Track := mkTrack { tr_file : option TrackFile; tr_name : string; tr_lang : string }.

Record Manifest := mkManifest {
  source_language : string;
  source_languages : list string;
  audio_tracks : list (string * string);   (* (name, language) *)
  video_files : list string;               (* languages with a video file *)
  manifest_duration : Q }.                 (* the [video_duration] used *)

Inductive Outcome := Exit (code : Z) | Done (m : Manifest).

(** [get_video_duration] (lines 57-65). *)
Definition get_video_duration (probe : option Q) : Q :=
  match probe with Some d => d | None => 0 end.

Section Main.

Variable w : World.

(** One iteration of the loop of lines 610-637 for [target_lang]. *)
Definition dub_target (detected : string) (whisper_en base : list Segment)
    (total : Q) (target_lang : string)
    (acc : Caches * FS * list Track) : option (Caches * FS * list Track) :=
  let '(st, fs, tracks) := acc in
  if String.eqb target_lang "en" then Some acc
  else if String.eqb detected target_lang then Some acc
  else
    let (translated, st1) := translate_segments w st whisper_en base "en" target_lang in
    match create_dub_track w st1 fs translated target_lang total with
    | None => None
    | Some (Some f, fs', st2) =>
        Some (st2, fs',
              (tracks ++ [mkTrack (Some f) (language_name target_lang +:+ " (AI Dubbed)")
                                   target_lang])%list)
    | Some (None, fs', st2) => Some (st2, fs', tracks)
    end.

Fixpoint dub_targets (detected : string) (whisper_en base : list Segment)
    (total : Q) (langs : list string) (acc : Caches * FS * list Track)
    : option (Caches * FS * list Track) :=
  match langs with
  | [] => Some acc
  | l :: rest =>
      match dub_target detected whisper_en base total l acc with
      | None => None
      | Some acc' => dub_targets detected whisper_en base total rest acc'
      end
  end.

(** Step 5 (lines 645-664): the keys of [video_files], in insertion
    order; the [i]-th track's language is added when its ffmpeg run wrote
    the video file, and a dict keeps one key per language. *)
Fixpoint written_videos_go (mux_ok : nat -> bool) (i : nat) (tracks : list Track)
    (acc : list string) : list string :=
  match tracks with
  | [] => acc
  | t :: rest =>
      written_videos_go mux_ok (S i) rest
        (if mux_ok i then set_add (tr_lang t) acc else acc)
  end.

Definition written_videos (mux_ok : nat -> bool) (tracks : list Track) : list string :=
  written_videos_go mux_ok 0 tracks [].

(** [main()] (lines 481-698).  An exception escaping [main] ends the
    process with status 1, as [sys.exit(1)] does. *)
Definition main (env : RunEnv) (args : Args) : Outcome :=
  if negb (env_input_exists env) then Exit 1 else
  if negb (env_extract_ok env) then Exit 1 else
  let video_duration := get_video_duration (env_probe env) in
  match env_transcribe env with
  | None => Exit 1
  | Some (detected_lang, segments_original) =>
      let source_languages := detect_mixed_languages detected_lang segments_original in
      let target_langs :=
        if arg_all_dubs args || (String.length (arg_target_langs args) =? 0)%nat
        then filter (fun l => negb (mem l source_languages)) SUPPORTED_LANGUAGES
        else parse_target_langs (arg_target_langs args) in
      let original :=
        mkTrack None ("Original (" +:+ language_name detected_lang +:+ ")") detected_lang in
      if negb (env_copy_ok env) then Exit 1 else
      let segments_english :=
        if String.eqb detected_lang "en" then Some segments_original
        else option_map (map (fun s => mkSeg (seg_start s) (seg_end s)
                           (Sanitizer.clean_translation_text (seg_text s))))
               (env_translate_en env) in
      match segments_english with
      | None => Exit 1
      | Some segments_english =>
          let whisper_en := match env_translate_en env with Some s => s | None => [] end in
          let en_step :=
            if mem "en" target_langs then
              match create_dub_track w caches_init fs_empty segments_english "en"
                      video_duration with
              | None => None
              | Some (Some f, fs, st) =>
                  Some (st, fs, [original; mkTrack (Some f) "English (AI Dubbed)" "en"])
              | Some (None, fs, st) => Some (st, fs, [original])
              end
            else Some (caches_init, fs_empty, [original]) in
          match en_step with
          | None => Exit 1
          | Some acc =>
              match dub_targets detected_lang whisper_en segments_english
                      video_duration target_langs acc with
              | None => Exit 1
              | Some (_, _, tracks) =>
                  if arg_embed_tracks args && (1 <? length tracks)%nat
                     && env_embed_raises env then Exit 1
                  else if negb (env_manifest_ok env) then Exit 1
                  else
                  Done (mkManifest detected_lang source_languages
                          (map (fun t => (tr_name t, tr_lang t)) tracks)
                          (written_videos (env_mux_ok env) tracks)
                          video_duration)
              end
          end
      end
  end.

End Main.

(* ------------------------------------------------------------------ *)
(** ** [dub_to_english.py]: the saved transcript *)

(** Python [sep.join(l)]. *)
Fixpoint py_join (sep : string) (l : list string) : string :=
  match l with
  | [] => ""
  | [x] => x
  | x :: r => x +:+ sep +:+ py_join sep r
  end.

(** [dub_to_english.py], lines 293-297: each segment's text is replaced by
    its cleaned text, and the transcript written to the [.txt] file is
    [' '.join([seg['text'] for seg in segments if seg['text']])]. *)
Definition english_transcript (segs : list Segment) : string :=
  py_join " " (List.filter (fun t => negb (String.eqb t ""))
                 (map (fun s => Sanitizer.clean_translation_text (seg_text s)) segs)).

(* ------------------------------------------------------------------ *)
(** ** [create_multi_audio_video] *)

(** An entry of [audio_tracks]: [str(track['path'])], [track['name']] and
    [track['lang']]. *)
Record AudioTrack := mkAudioTrack { at_path : string; at_name : string; at_lang : string }.

(** Python [f'{n}'] on a natural number: its decimal digits. *)
Definition py_str_nat (n : nat) : string := pretty (N.of_nat n).

(** The loop of lines 456-457, [enumerate] starting at [i]. *)
Fixpoint map_audio_args (i : nat) (tracks : list AudioTrack) : list string :=
  match tracks with
  | [] => []
  | _ :: rest => (["-map"; py_str_nat (i + 1)%nat +:+ ":a"] ++ map_audio_args (S i) rest)%list
  end.

(** The loop of lines 463-465, [enumerate] starting at [i]. *)
Fixpoint metadata_args (i : nat) (tracks : list AudioTrack) : list string :=
  match tracks with
  | [] => []
  | t :: rest =>
      (["-metadata:s:a:" +:+ py_str_nat i; "title=" +:+ at_name t;
        "-metadata:s:a:" +:+ py_str_nat i; "language=" +:+ at_lang t]
       ++ metadata_args (S i) rest)%list
  end.

(** The ffmpeg command of [create_multi_audio_video] (lines 447-470). *)
Definition create_multi_audio_video_cmd (input_video : string) (audio_tracks : list AudioTrack)
    (output_path : string) : list string :=
  (["ffmpeg"; "-y"; "-i"; input_video]
   ++ concat (map (fun t => ["-i"; at_path t]) audio_tracks)
   ++ ["-map"; "0:v"]
   ++ map_audio_args 0 audio_tracks
   ++ ["-c:v"; "copy"; "-c:a"; "aac"; "-b:a"; "192k"]
   ++ metadata_args 0 audio_tracks
   ++ ["-disposition:a:0"; "default"]
   ++ [output_path])%list.

(** [create_multi_audio_video] (lines 442-479); [run cmd] is whether the
    command exits with status 0 and the output file exists. *)
Definition create_multi_audio_video (run : list string -> bool) (input_video : string)
    (audio_tracks : list AudioTrack) (output_path : string) : bool :=
  run (create_multi_audio_video_cmd input_video audio_tracks output_path).

(* ================================================================== *)
(** * Fixtures for the witnesses and counterexamples *)

(** Concrete clips used by the witnesses and counterexamples. *)
Definition raw0 : Path := RawClip "en" 0.
Definition adj0 : Path := AdjClip "en" 0.
Definition fs_with (a : Audio) : FS := fs_write fs_empty raw0 a.
Definition never_fails1 : Audio -> bool := fun _ => false.
Definition never_fails2 : Audio -> list Q -> bool := fun _ _ => false.

Definition always_fails2 : Audio -> list Q -> bool := fun _ _ => true.

(** The cache key a request consults, if any (unsupported TTS languages
    return [None] without touching the cache). *)
Definition req_key (r : Request) : option LoadKey :=
  match r with
  | TtsReq l =>
      if String.eqb l "en" then Some (TtsKey "en_tts")
      else match mms_model_name l with
           | Some _ => Some (TtsKey (l +:+ "_tts"))
           | None => None
           end
  | MtReq s t => Some (MtKey (s +:+ "_to_" +:+ t))
  end.

Definition cache_lookup (st : Caches) (k : LoadKey) : option (option Handle) :=
  match k with
  | TtsKey k => tts_models st !! k
  | MtKey k => translation_models st !! k
  end.

(** Every logged load fills its key, and no key is logged twice. *)
Definition cache_inv (st : Caches) : Prop :=
  NoDup (load_log st) /\
  (forall k, TtsKey k ∈ load_log st -> is_Some (tts_models st !! k)) /\
  (forall k, MtKey k ∈ load_log st -> is_Some (translation_models st !! k)).

(** A concrete world: every tool works, each TTS backend speaks half a
    second per character, a decoded clip is one unit frame per ms. *)
Definition demo_clip (t : string) : option Audio :=
  Some (mkAudio (inject_Z (Z.of_nat (String.length t)) / 2) []).

Definition demo_decode (a : Audio) : option Frames :=
  Some (repeat 1%Z (to_ms (audio_duration a))).

Definition demo_world : World :=
  mkWorld never_fails1 never_fails2 true demo_decode true true
    (Some 1%nat) (fun _ => Some 2%nat) (fun _ => Some 3%nat) (fun _ => Some 4%nat)
    (fun _ t => demo_clip t) (fun _ _ t => demo_clip t) (fun _ t => demo_clip t)
    (fun _ t => Some t).

(** ffprobe's output for a video of 10.000488 s. *)
Definition odd_total : Q := 10000488 # 1000000.

(** [dub_to_english.py], lines 293-310: the sibling pipeline cleans the
    text first and skips it when the cleaned text is empty or shorter
    than 3 characters. *)
Definition dub_to_english_skips (raw_text : string) : bool :=
  let text := Sanitizer.clean_translation_text raw_text in
  (String.length text =? 0)%nat || (String.length text <? 3)%nat.

(** The demo world with ffmpeg's tempo runs failing. *)
Definition demo_world_ffmpeg_down : World :=
  mkWorld never_fails1 always_fails2 true demo_decode true true
    (Some 1%nat) (fun _ => Some 2%nat) (fun _ => Some 3%nat) (fun _ => Some 4%nat)
    (fun _ t => demo_clip t) (fun _ _ t => demo_clip t) (fun _ t => demo_clip t)
    (fun _ t => Some t).

(** A run on an English lecture of two segments, 10 s long. *)
Definition demo_env (probe : option Q) : RunEnv :=
  mkRunEnv true true probe
    (Some ("en", [mkSeg 0 2 "hello"; mkSeg 5 7 "world"])) None true (fun _ => true) false true.

(* ================================================================== *)
(** * Predicates used to state the properties *)

(** [measured b] is the duration of the file ffmpeg writes for the
    nominal clip [b]; it is within relative error [eps] of [b]'s nominal
    duration. *)
Definition atempo_accurate (measured : Audio -> Q) (eps : Q) (b : Audio) : Prop :=
  Qabs (measured b - audio_duration b) <= eps * audio_duration b.

(** A character list in which the only whitespace is the plain space and
    no two whitespace characters are adjacent. *)
Definition single_spaced (l : list ascii) : Prop :=
  (forall c, In c l -> Sanitizer.is_space c = true -> c = " "%char) /\
  (forall l1 l2 c d, l = (l1 ++ c :: d :: l2)%list ->
     Sanitizer.is_space c = false \/ Sanitizer.is_space d = false).

(** The script test of [detect_mixed_languages] that adds language [x] for
    segment [seg] (lines 428-437). *)
Definition script_hit (x : string) (seg : Segment) : Prop :=
  (x = "ml" /\ has_block 180 181 (seg_text seg) = true) \/
  (x = "hi" /\ has_block 164 165 (seg_text seg) = true) \/
  (x = "ta" /\ has_block 174 175 (seg_text seg) = true).

(** The languages served by Facebook MMS models. *)
Definition mms_lang (l : string) : Prop := l = "ml" \/ l = "hi" \/ l = "ta".

(** Every cached MMS model comes with its cached tokenizer. *)
Definition tokenizer_ready (st : Caches) : Prop :=
  forall l h, mms_lang l -> tts_models st !! (l +:+ "_tts") = Some (Some h) ->
  exists t, tts_models st !! (l +:+ "_tokenizer") = Some (Some t).

(** An entry of [tts_segments] built from segment [ts_index e] of [segs0]:
    its timing and cleaned text, and an existing clip file of its own. *)
Definition clip_ok (lang : string) (segs0 : list Segment) (fs : FS) (e : TtsSeg) : Prop :=
  exists seg, nth_error segs0 (ts_index e) = Some seg /\
    ts_start e = seg_start seg /\ ts_end e = seg_end seg /\
    ts_text e = Sanitizer.clean_translation_text (seg_text seg) /\ ts_text e <> "" /\
    (ts_file e = RawClip lang (ts_index e) \/ ts_file e = AdjClip lang (ts_index e)) /\
    exists_ fs (ts_file e) = true.

(** A non-empty single-spaced text that starts with a character that is
    neither whitespace nor lowercase and ends with a non-whitespace one. *)
Definition transcript_piece (l : list ascii) : Prop :=
  single_spaced l /\
  (exists c r, l = c :: r /\ Sanitizer.is_space c = false /\ Sanitizer.is_lower c = false) /\
  (exists r d, l = (r ++ [d])%list /\ Sanitizer.is_space d = false).

(** An ffmpeg argument vector read as ffmpeg reads it: a list of
    (option, value) pairs. *)
Definition option_pairs (opts : list (string * string)) : list string :=
  concat (map (fun p => [fst p; snd p]) opts).

(** The values given to option [o], in order. *)
Definition option_values (o : string) (opts : list (string * string)) : list string :=
  map snd (List.filter (fun p => String.eqb (fst p) o) opts).

Fixpoint map_audio_opts (i : nat) (tracks : list AudioTrack) : list (string * string) :=
  match tracks with
  | [] => []
  | _ :: rest => ("-map", py_str_nat (i + 1)%nat +:+ ":a") :: map_audio_opts (S i) rest
  end.

Fixpoint metadata_opts (i : nat) (tracks : list AudioTrack) : list (string * string) :=
  match tracks with
  | [] => []
  | t :: rest =>
      ("-metadata:s:a:" +:+ py_str_nat i, "title=" +:+ at_name t) ::
      ("-metadata:s:a:" +:+ py_str_nat i, "language=" +:+ at_lang t) ::
      metadata_opts (S i) rest
  end.

(** * Properties *)

(** Sample runs of the sanitizer and of [overlay]. *)
Example clean_ex1 :
  Sanitizer.clean_translation_text "<|en|> hello [Music] world (applause)" = "Hello world".
Proof. reflexivity. Qed.
Example clean_ex2 : Sanitizer.clean_translation_text " , ok.  go" = "Ok. go".
Proof. reflexivity. Qed.
Example clean_ex3 : Sanitizer.clean_translation_text "ab [x]" = "Ab".
Proof. reflexivity. Qed.

Example overlay_ex :
  overlay [1;1;1;1;1]%Z 3 [5;5;5]%Z = [1;1;1;6;6]%Z.
Proof. reflexivity. Qed.

(** ** Arithmetic of the reconciler *)

Lemma qle_spec (a b : Q) : qle a b = true <-> a <= b.
Proof. unfold qle. apply Qle_bool_iff. Qed.

Lemma qlt_spec (a b : Q) : qlt a b = true <-> a < b.
Proof.
  unfold qlt. rewrite negb_true_iff. split; intro H.
  - apply Qnot_le_lt. intro H'. apply Qle_bool_iff in H'. congruence.
  - destruct (Qle_bool b a) eqn:E; [|reflexivity].
    apply Qle_bool_iff in E. exfalso. apply (Qlt_not_le _ _ H E).
Qed.

Lemma qlt_false (a b : Q) : qlt a b = false <-> b <= a.
Proof.
  split; intro H.
  - apply Qnot_lt_le. intro H'. apply qlt_spec in H'. congruence.
  - destruct (qlt a b) eqn:E; [|reflexivity].
    apply qlt_spec in E. exfalso. apply (Qlt_not_le _ _ E H).
Qed.

Lemma qle_false (a b : Q) : qle a b = false <-> b < a.
Proof.
  split; intro H.
  - apply Qnot_le_lt. intro H'. apply qle_spec in H'. congruence.
  - destruct (qle a b) eqn:E; [|reflexivity].
    apply qle_spec in E. exfalso. apply (Qlt_not_le _ _ H E).
Qed.

Lemma tempo_product_app (l1 l2 : list Q) :
  tempo_product (l1 ++ l2)%list == tempo_product l1 * tempo_product l2.
Proof.
  induction l1 as [|x l1 IH]; simpl.
  - ring.
  - unfold tempo_product in *. simpl. rewrite IH. ring.
Qed.

Lemma audio_duration_atempo (fs : list Q) (a : Audio) :
  audio_duration (apply_atempo fs a) == audio_duration a / tempo_product fs.
Proof.
  unfold audio_duration, apply_atempo. simpl.
  rewrite tempo_product_app. unfold Qdiv. rewrite Qinv_mult_distr. ring.
Qed.

Lemma tempo_product_chain (s : Q) : tempo_product (atempo_chain s) == s.
Proof.
  unfold atempo_chain. destruct (qlt 2 s); unfold tempo_product; simpl; field.
Qed.

Lemma clamp_speed_bounds (r d : Q) :
  1#2 <= clamp_speed r d /\ clamp_speed r d <= 5#2.
Proof.
  unfold clamp_speed, py_max, py_min.
  destruct (qlt (r / d) (5#2)) eqn:E1.
  - apply qlt_spec in E1.
    destruct (qlt (1#2) (r / d)) eqn:E2.
    + apply qlt_spec in E2. split; apply Qlt_le_weak; assumption.
    + split; [apply Qle_refl | discriminate].
  - apply qlt_false in E1. simpl. split; discriminate.
Qed.

Lemma clamp_speed_in_range (r d : Q) :
  1#2 <= r / d -> r / d <= 5#2 -> clamp_speed r d == r / d.
Proof.
  intros Hlo Hhi. unfold clamp_speed, py_max, py_min.
  destruct (qlt (r / d) (5#2)) eqn:E1.
  - destruct (qlt (1#2) (r / d)) eqn:E2.
    + reflexivity.
    + apply qlt_false in E2. apply Qle_antisym; assumption.
  - apply qlt_false in E1. simpl. apply Qle_antisym; assumption.
Qed.

Lemma clamp_speed_above (r d : Q) : 5#2 < r / d -> clamp_speed r d == 5#2.
Proof.
  intro H. unfold clamp_speed, py_max, py_min.
  destruct (qlt (r / d) (5#2)) eqn:E1.
  - apply qlt_spec in E1. exfalso. apply (Qlt_irrefl (r / d)).
    apply Qlt_trans with (5#2); assumption.
  - reflexivity.
Qed.

Lemma clamp_speed_below (r d : Q) : r / d < 1#2 -> clamp_speed r d == 1#2.
Proof.
  intro H. unfold clamp_speed, py_max, py_min.
  destruct (qlt (r / d) (5#2)) eqn:E1.
  - destruct (qlt (1#2) (r / d)) eqn:E2.
    + apply qlt_spec in E2. exfalso. apply (Qlt_irrefl (r / d)).
      apply Qlt_trans with (1#2); assumption.
    + reflexivity.
  - apply qlt_false in E1. exfalso. apply (Qlt_irrefl (r / d)).
    apply Qlt_le_trans with (1#2); [assumption|].
    apply Qle_trans with (5#2); [discriminate | assumption].
Qed.

(** On a readable clip with positive durations, [adjust_audio_speed] runs
    ffmpeg with the chain built from the clamped speed. *)
Lemma adjust_audio_speed_scaling_branch (pf : Audio -> bool)
    (mf : Audio -> list Q -> bool) (fs : FS) (raw adj : Path) (a : Audio) (d : Q) :
  fs raw = Some a -> pf a = false -> 0 < audio_duration a -> 0 < d ->
  adjust_audio_speed pf mf fs raw adj d =
    let chain := atempo_chain (clamp_speed (audio_duration a) d) in
    if mf a chain then Some fs else Some (fs_write fs adj (apply_atempo chain a)).
Proof.
  intros Hraw Hpf Hr Hd. unfold adjust_audio_speed. rewrite Hraw, Hpf.
  apply qle_false in Hr. apply qle_false in Hd. rewrite Hr, Hd. reflexivity.
Qed.

Lemma atempo_result_duration (a : Audio) (d : Q) :
  0 < audio_duration a ->
  audio_duration (apply_atempo (atempo_chain (clamp_speed (audio_duration a) d)) a)
    == audio_duration a / clamp_speed (audio_duration a) d.
Proof.
  intro Hr. rewrite audio_duration_atempo, tempo_product_chain. reflexivity.
Qed.

(** ** Claims on [adjust_audio_speed] *)

(** C1 (counterexample): a 6 s clip for a 2 s slot has [r/d = 3 > 2.5];
    it is not returned unscaled: its tempo is raised by the clamped factor
    2.5 and the result lasts 2.4 s, not 6 s. *)
Lemma C1_out_of_range_is_scaled :
  match adjust_audio_speed never_fails1 never_fails2 (fs_with (mkAudio 6 []))
          raw0 adj0 2 with
  | Some fs' =>
      match fs' adj0 with
      | Some b => ~ (audio_duration b == 6) /\ audio_duration b == 12#5
      | None => False
      end
  | None => False
  end.
Proof. vm_compute. split; [intro H; discriminate H | reflexivity]. Qed.

(** C1 (amended): for a clip whose measured duration [r] and target [d]
    are positive, when ffmpeg writes the adjusted clip, and its [atempo]
    output is within relative error [eps] of the nominal duration, the
    written clip lasts [d] up to [eps * d] if [0.5 <= r/d <= 2.5].  Outside
    that range the clip is still scaled, by the clamped factor: it lasts
    about [r/2.5] when [r/d > 2.5] and about [2r] when [r/d < 0.5] (up to
    the same relative error), over- or under-running its slot. *)
Theorem C1_adjusted_duration (pf : Audio -> bool) (mf : Audio -> list Q -> bool)
    (fs : FS) (raw adj : Path) (a : Audio) (d : Q) (measured : Audio -> Q) (eps : Q) :
  fs raw = Some a -> pf a = false -> 0 < audio_duration a -> 0 < d ->
  mf a (atempo_chain (clamp_speed (audio_duration a) d)) = false ->
  atempo_accurate measured eps
    (apply_atempo (atempo_chain (clamp_speed (audio_duration a) d)) a) ->
  exists b,
    adjust_audio_speed pf mf fs raw adj d = Some (fs_write fs adj b) /\
    (1#2 <= audio_duration a / d -> audio_duration a / d <= 5#2 ->
       Qabs (measured b - d) <= eps * d) /\
    (5#2 < audio_duration a / d ->
       Qabs (measured b - audio_duration a / (5#2)) <= eps * (audio_duration a / (5#2))) /\
    (audio_duration a / d < 1#2 ->
       Qabs (measured b - 2 * audio_duration a) <= eps * (2 * audio_duration a)).
Proof.
  intros Hraw Hpf Hr Hd Hmf Hacc.
  exists (apply_atempo (atempo_chain (clamp_speed (audio_duration a) d)) a).
  rewrite (adjust_audio_speed_scaling_branch pf mf fs raw adj a d Hraw Hpf Hr Hd).
  cbv zeta. rewrite Hmf. split; [reflexivity|].
  unfold atempo_accurate in Hacc.
  set (b := apply_atempo (atempo_chain (clamp_speed (audio_duration a) d)) a) in *.
  assert (HD : audio_duration b == audio_duration a / clamp_speed (audio_duration a) d)
    by exact (atempo_result_duration a d Hr).
  rewrite HD in Hacc. clearbody b.
  assert (Hr0 : ~ audio_duration a == 0) by (intro E; rewrite E in Hr; apply (Qlt_irrefl 0 Hr)).
  assert (Hd0 : ~ d == 0) by (intro E; rewrite E in Hd; apply (Qlt_irrefl 0 Hd)).
  split; [|split].
  - intros Hlo Hhi. rewrite (clamp_speed_in_range _ _ Hlo Hhi) in Hacc.
    assert (E : audio_duration a / (audio_duration a / d) == d) by (field; split; assumption).
    rewrite E in Hacc. exact Hacc.
  - intro H. rewrite (clamp_speed_above _ _ H) in Hacc. exact Hacc.
  - intro H. rewrite (clamp_speed_below _ _ H) in Hacc.
    assert (E : audio_duration a / (1#2) == 2 * audio_duration a) by field.
    rewrite E in Hacc. exact Hacc.
Qed.

Lemma C1_adjusted_duration_witness :
  fs_with (mkAudio 3 []) raw0 = Some (mkAudio 3 []) /\
  never_fails1 (mkAudio 3 []) = false /\
  0 < audio_duration (mkAudio 3 []) /\ 0 < 2 /\
  never_fails2 (mkAudio 3 [])
    (atempo_chain (clamp_speed (audio_duration (mkAudio 3 [])) 2)) = false /\
  atempo_accurate (fun b => audio_duration b * (101#100)) (1#50)
    (apply_atempo (atempo_chain (clamp_speed (audio_duration (mkAudio 3 [])) 2))
       (mkAudio 3 [])) /\
  exists b,
    adjust_audio_speed never_fails1 never_fails2 (fs_with (mkAudio 3 [])) raw0 adj0 2
      = Some (fs_write (fs_with (mkAudio 3 [])) adj0 b) /\
    (1#2 <= audio_duration (mkAudio 3 []) / 2 ->
       audio_duration (mkAudio 3 []) / 2 <= 5#2 ->
       Qabs (audio_duration b * (101#100) - 2) <= (1#50) * 2) /\
    (5#2 < audio_duration (mkAudio 3 []) / 2 ->
       Qabs (audio_duration b * (101#100) - audio_duration (mkAudio 3 []) / (5#2))
         <= (1#50) * (audio_duration (mkAudio 3 []) / (5#2))) /\
    (audio_duration (mkAudio 3 []) / 2 < 1#2 ->
       Qabs (audio_duration b * (101#100) - 2 * audio_duration (mkAudio 3 []))
         <= (1#50) * (2 * audio_duration (mkAudio 3 []))).
Proof.
  split; [reflexivity|]. split; [reflexivity|].
  split; [vm_compute; reflexivity|]. split; [vm_compute; reflexivity|].
  split; [reflexivity|].
  split; [vm_compute; intro H; discriminate H|].
  apply (C1_adjusted_duration never_fails1 never_fails2 (fs_with (mkAudio 3 []))
           raw0 adj0 (mkAudio 3 []) 2 (fun b => audio_duration b * (101#100)) (1#50));
    try reflexivity; try (vm_compute; reflexivity).
  vm_compute; intro H; discriminate H.
Defined.

(** C6: with positive durations [r] and [d], [adjust_audio_speed] computes
    [speed = r/d], clamps it to [[0.5, 2.5]], and runs ffmpeg with the
    two-stage chain [[speed/2; 2.0]] (whose product is [speed]) exactly
    when the clamped speed exceeds 2.0, a single stage otherwise. *)
Theorem C6_clamp_and_two_stages (pf : Audio -> bool) (mf : Audio -> list Q -> bool)
    (fs : FS) (raw adj : Path) (a : Audio) (d : Q) :
  fs raw = Some a -> pf a = false -> 0 < audio_duration a -> 0 < d ->
  let s := clamp_speed (audio_duration a) d in
  adjust_audio_speed pf mf fs raw adj d =
    (if mf a (atempo_chain s) then Some fs
     else Some (fs_write fs adj (apply_atempo (atempo_chain s) a))) /\
  (1#2 <= s /\ s <= 5#2) /\
  (1#2 <= audio_duration a / d -> audio_duration a / d <= 5#2 ->
     s == audio_duration a / d) /\
  (5#2 < audio_duration a / d -> s == 5#2) /\
  (audio_duration a / d < 1#2 -> s == 1#2) /\
  (2 < s -> atempo_chain s = [s / 2; 2] /\ s / 2 * 2 == s) /\
  (s <= 2 -> atempo_chain s = [s]).
Proof.
  intros Hraw Hpf Hr Hd s.
  split; [exact (adjust_audio_speed_scaling_branch pf mf fs raw adj a d Hraw Hpf Hr Hd)|].
  split; [apply clamp_speed_bounds|].
  split; [apply clamp_speed_in_range|].
  split; [apply clamp_speed_above|].
  split; [apply clamp_speed_below|].
  split.
  - intro H. unfold atempo_chain. apply qlt_spec in H. rewrite H.
    split; [reflexivity | field].
  - intro H. unfold atempo_chain. apply qlt_false in H. rewrite H. reflexivity.
Qed.

Lemma C6_clamp_and_two_stages_witness :
  let a := mkAudio 6 [] in
  fs_with a raw0 = Some a /\ never_fails1 a = false /\
  0 < audio_duration a /\ 0 < 2 /\
  (let s := clamp_speed (audio_duration a) 2 in
   adjust_audio_speed never_fails1 never_fails2 (fs_with a) raw0 adj0 2 =
     (if never_fails2 a (atempo_chain s) then Some (fs_with a)
      else Some (fs_write (fs_with a) adj0 (apply_atempo (atempo_chain s) a))) /\
   (1#2 <= s /\ s <= 5#2) /\
   (1#2 <= audio_duration a / 2 -> audio_duration a / 2 <= 5#2 ->
      s == audio_duration a / 2) /\
   (5#2 < audio_duration a / 2 -> s == 5#2) /\
   (audio_duration a / 2 < 1#2 -> s == 1#2) /\
   (2 < s -> atempo_chain s = [s / 2; 2] /\ s / 2 * 2 == s) /\
   (s <= 2 -> atempo_chain s = [s])).
Proof.
  cbv zeta. split; [reflexivity|]. split; [reflexivity|].
  split; [vm_compute; reflexivity|]. split; [vm_compute; reflexivity|].
  apply (C6_clamp_and_two_stages never_fails1 never_fails2 (fs_with (mkAudio 6 []))
           raw0 adj0 (mkAudio 6 []) 2); try reflexivity; vm_compute; reflexivity.
Defined.

(** C7 (counterexample): when the ffmpeg tempo run fails (it exits with an
    error; [subprocess.run] does not raise), [adjust_audio_speed] returns
    normally and writes nothing: no copy of the original clip exists at
    its output path. *)
Lemma C7_ffmpeg_failure_leaves_no_copy :
  adjust_audio_speed never_fails1 always_fails2 (fs_with (mkAudio 3 [])) raw0 adj0 2
    = Some (fs_with (mkAudio 3 [])) /\
  fs_with (mkAudio 3 []) adj0 = None.
Proof. split; reflexivity. Qed.

(** C7 (amended): for an existing input clip, when its measured duration
    or the target is non-positive, or measuring it raises,
    [adjust_audio_speed] writes an unscaled copy of it to the output path.
    When the ffmpeg tempo run fails instead, nothing is written and the
    caller ([create_dub_track], line 394) keeps the raw clip.  Either way
    the clip kept for the segment is the original, unscaled one; nothing
    is dropped and nothing is raised. *)
Theorem C7_fallback_to_original (pf : Audio -> bool) (mf : Audio -> list Q -> bool)
    (fs : FS) (raw adj : Path) (a : Audio) (d : Q) :
  raw <> adj -> fs raw = Some a -> fs adj = None ->
  ((pf a = true \/ audio_duration a <= 0 \/ d <= 0) ->
     adjust_audio_speed pf mf fs raw adj d = Some (fs_write fs adj a) /\
     reconciled_clip pf mf fs raw adj d = Some a) /\
  ((pf a = false /\ 0 < audio_duration a /\ 0 < d /\
    mf a (atempo_chain (clamp_speed (audio_duration a) d)) = true) ->
     adjust_audio_speed pf mf fs raw adj d = Some fs /\
     reconciled_clip pf mf fs raw adj d = Some a).
Proof.
  intros Hne Hraw Hadj. split.
  - intro Hcase.
    assert (Hcopy : adjust_audio_speed pf mf fs raw adj d = Some (fs_write fs adj a)).
    { unfold adjust_audio_speed. rewrite Hraw.
      destruct (pf a) eqn:Hpf; [reflexivity|].
      destruct Hcase as [Hc | [Hc | Hc]]; [discriminate| |].
      - apply qle_spec in Hc. rewrite Hc. reflexivity.
      - apply qle_spec in Hc. rewrite Hc, orb_true_r. reflexivity. }
    split; [exact Hcopy|].
    unfold reconciled_clip. rewrite Hcopy. unfold fs_write.
    destruct (decide (adj = adj)) as [_|n]; [reflexivity | congruence].
  - intros (Hpf & Hr & Hd & Hmf).
    assert (Hkeep : adjust_audio_speed pf mf fs raw adj d = Some fs).
    { rewrite (adjust_audio_speed_scaling_branch pf mf fs raw adj a d Hraw Hpf Hr Hd).
      cbv zeta. rewrite Hmf. reflexivity. }
    split; [exact Hkeep|].
    unfold reconciled_clip. rewrite Hkeep, Hadj. exact Hraw.
Qed.

Lemma C7_fallback_to_original_witness :
  raw0 <> adj0 /\ fs_with (mkAudio 3 []) raw0 = Some (mkAudio 3 []) /\
  fs_with (mkAudio 3 []) adj0 = None /\
  reconciled_clip never_fails1 always_fails2 (fs_with (mkAudio 3 [])) raw0 adj0 2
    = Some (mkAudio 3 []) /\
  reconciled_clip never_fails1 never_fails2 (fs_with (mkAudio 3 [])) raw0 adj0 0
    = Some (mkAudio 3 []).
Proof.
  assert (Hne : raw0 <> adj0) by discriminate.
  split; [exact Hne|]. split; [reflexivity|]. split; [reflexivity|]. split.
  - apply (proj2 (C7_fallback_to_original never_fails1 always_fails2
            (fs_with (mkAudio 3 [])) raw0 adj0 (mkAudio 3 []) 2 Hne eq_refl eq_refl)).
    split; [reflexivity|]. split; [vm_compute; reflexivity|].
    split; [vm_compute; reflexivity | reflexivity].
  - apply (proj1 (C7_fallback_to_original never_fails1 never_fails2
            (fs_with (mkAudio 3 [])) raw0 adj0 (mkAudio 3 []) 0 Hne eq_refl eq_refl)).
    right. right. apply Qle_refl.
Defined.

(** ** Claims on the model caches *)

Lemma cache_inv_init : cache_inv caches_init.
Proof.
  split; [constructor|]. split; intros k Hk; simpl in Hk; set_solver.
Qed.

Lemma cache_inv_set_tts (st : Caches) (k : string) (v : option Handle) :
  cache_inv st -> cache_inv (set_tts st k v).
Proof.
  intros (Hnd & Ht & Hm). split; [exact Hnd|]. split; [|exact Hm].
  intros j Hj. simpl. apply lookup_insert_is_Some'. right. apply Ht, Hj.
Qed.

Lemma cache_inv_set_mt (st : Caches) (k : string) (v : option Handle) :
  cache_inv st -> cache_inv (set_mt st k v).
Proof.
  intros (Hnd & Ht & Hm). split; [exact Hnd|]. split; [exact Ht|].
  intros j Hj. simpl. apply lookup_insert_is_Some'. right. apply Hm, Hj.
Qed.

Lemma NoDup_snoc (l : list LoadKey) (x : LoadKey) :
  NoDup l -> x ∉ l -> NoDup (l ++ [x])%list.
Proof.
  intros Hnd Hx. apply NoDup_app. split; [exact Hnd|]. split; [|apply NoDup_singleton].
  intros y Hy Hy'. apply list_elem_of_singleton in Hy'. subst. contradiction.
Qed.

(** A first load of a TTS key: the key is logged once and filled. *)
Lemma cache_inv_load_tts (st : Caches) (k : string) (m : gmap string (option Handle)) :
  cache_inv st -> tts_models st !! k = None ->
  (forall j, is_Some (tts_models st !! j) -> is_Some (m !! j)) -> is_Some (m !! k) ->
  cache_inv (mkCaches m (translation_models st) (load_log st ++ [TtsKey k])%list).
Proof.
  intros (Hnd & Ht & Hm) Hk Hgrow Hfill. split; [|split]; simpl.
  - apply NoDup_snoc; [exact Hnd|]. intro Hin. apply Ht in Hin.
    rewrite Hk in Hin. inversion Hin. discriminate.
  - intros j Hj. apply elem_of_app in Hj as [Hj | Hj].
    + apply Hgrow, Ht, Hj.
    + apply list_elem_of_singleton in Hj. injection Hj as ->. exact Hfill.
  - intros j Hj. apply elem_of_app in Hj as [Hj | Hj].
    + apply Hm, Hj.
    + apply list_elem_of_singleton in Hj. discriminate.
Qed.

Lemma cache_inv_load_mt (st : Caches) (k : string) (v : option Handle) :
  cache_inv st -> translation_models st !! k = None ->
  cache_inv (set_mt (log_load st (MtKey k)) k v).
Proof.
  intros (Hnd & Ht & Hm) Hk. split; [|split]; simpl.
  - apply NoDup_snoc; [exact Hnd|]. intro Hin. apply Hm in Hin.
    rewrite Hk in Hin. inversion Hin. discriminate.
  - intros j Hj. apply elem_of_app in Hj as [Hj | Hj].
    + apply Ht, Hj.
    + apply list_elem_of_singleton in Hj. discriminate.
  - intros j Hj. apply lookup_insert_is_Some'.
    apply elem_of_app in Hj as [Hj | Hj].
    + right. apply Hm, Hj.
    + apply list_elem_of_singleton in Hj. injection Hj as ->. left. reflexivity.
Qed.

Lemma mms_model_name_some (l name : string) :
  mms_model_name l = Some name -> l = "ml" \/ l = "hi" \/ l = "ta".
Proof.
  unfold mms_model_name.
  destruct (String.eqb l "ml") eqn:E1; [apply String.eqb_eq in E1; auto|].
  destruct (String.eqb l "hi") eqn:E2; [apply String.eqb_eq in E2; auto|].
  destruct (String.eqb l "ta") eqn:E3; [apply String.eqb_eq in E3; auto|].
  discriminate.
Qed.

Section CacheProofs.

Variable coqui_load : option Handle.
Variable mms_tokenizer_load mms_model_load marian_load : string -> option Handle.

Lemma serve_cache_inv (st : Caches) (r : Request) :
  cache_inv st ->
  cache_inv (snd (serve coqui_load mms_tokenizer_load mms_model_load marian_load st r)).
Proof.
  intro Hinv. destruct r as [l | s t]; simpl.
  - unfold get_tts_model_for_language.
    destruct (String.eqb l "en").
    + simpl. destruct (tts_models st !! "en_tts") eqn:Hk; [exact Hinv|].
      unfold set_tts, log_load; simpl.
      apply cache_inv_load_tts; [exact Hinv | exact Hk | |].
      * intros j Hj. apply lookup_insert_is_Some'. right. exact Hj.
      * rewrite lookup_insert_eq. eexists; reflexivity.
    + destruct (mms_model_name l) as [name|]; [|exact Hinv]. simpl.
      destruct (tts_models st !! (l +:+ "_tts")) eqn:Hk; [exact Hinv|].
      destruct (mms_tokenizer_load name) as [tok|];
        unfold set_tts, log_load; simpl.
      * apply cache_inv_load_tts; [exact Hinv | exact Hk | |].
        -- intros j Hj. apply lookup_insert_is_Some'. right.
           apply lookup_insert_is_Some'. right. exact Hj.
        -- rewrite lookup_insert_eq. eexists; reflexivity.
      * apply cache_inv_load_tts; [exact Hinv | exact Hk | |].
        -- intros j Hj. apply lookup_insert_is_Some'. right. exact Hj.
        -- rewrite lookup_insert_eq. eexists; reflexivity.
  - unfold get_translation_model. simpl.
    destruct (translation_models st !! (s +:+ "_to_" +:+ t)) eqn:Hk; [exact Hinv|].
    destruct (marian_model_name s t).
    + apply cache_inv_load_mt; assumption.
    + apply cache_inv_set_mt; exact Hinv.
Qed.

Lemma serve_all_cache_inv (st : Caches) (rs : list Request) :
  cache_inv st ->
  cache_inv (serve_all coqui_load mms_tokenizer_load mms_model_load marian_load st rs).
Proof.
  revert st. induction rs as [|r rs IH]; intros st Hinv; simpl; [exact Hinv|].
  apply IH. apply serve_cache_inv. exact Hinv.
Qed.

End CacheProofs.

Lemma dict_get_present (m : gmap string (option Handle)) (k : string) :
  is_Some (m !! k) -> m !! k = Some (dict_get m k).
Proof. unfold dict_get. intros [v Hv]. rewrite Hv. reflexivity. Qed.

(** C8: (1) over any sequence of requests in a run, no cache key is loaded
    twice (the log of load attempts has no duplicate); (2) a request whose
    key is already bound returns the stored value and changes nothing, in
    particular makes no load attempt; (3) after any request the key is
    bound to the value returned, so a failed first load leaves the sentinel
    [Some None], distinct from the unbound "never attempted" state. *)
Theorem C8_one_load_per_key (coqui_load : option Handle)
    (mms_tokenizer_load mms_model_load marian_load : string -> option Handle) :
  let serve' := serve coqui_load mms_tokenizer_load mms_model_load marian_load in
  (forall rs : list Request,
     NoDup (load_log (serve_all coqui_load mms_tokenizer_load mms_model_load
                        marian_load caches_init rs))) /\
  (forall (st : Caches) (r : Request) (k : LoadKey) (v : option Handle),
     req_key r = Some k -> cache_lookup st k = Some v -> serve' st r = (v, st)) /\
  (forall (st : Caches) (r : Request) (k : LoadKey),
     req_key r = Some k ->
     cache_lookup (snd (serve' st r)) k = Some (fst (serve' st r))).
Proof.
  intro serve'. split; [|split].
  - intro rs. apply (serve_all_cache_inv coqui_load mms_tokenizer_load mms_model_load
                       marian_load caches_init rs cache_inv_init).
  - intros st r k v Hk Hv. unfold serve', serve.
    destruct r as [l | s t]; simpl in Hk.
    + unfold get_tts_model_for_language.
      destruct (String.eqb l "en").
      * injection Hk as <-. simpl in Hv. rewrite Hv. unfold dict_get. rewrite Hv. reflexivity.
      * destruct (mms_model_name l); [|discriminate].
        injection Hk as <-. simpl in Hv. rewrite Hv. unfold dict_get. rewrite Hv. reflexivity.
    + injection Hk as <-. simpl in Hv. unfold get_translation_model.
      rewrite Hv. unfold dict_get. rewrite Hv. reflexivity.
  - intros st r k Hk. unfold serve', serve.
    destruct r as [l | s t]; simpl in Hk.
    + unfold get_tts_model_for_language.
      destruct (String.eqb l "en").
      * injection Hk as <-. simpl. apply dict_get_present.
        destruct (tts_models st !! "en_tts") eqn:Hl.
        -- rewrite Hl. eexists; reflexivity.
        -- simpl. rewrite lookup_insert_eq. eexists; reflexivity.
      * destruct (mms_model_name l) as [name|]; [|discriminate].
        injection Hk as <-. simpl. apply dict_get_present.
        destruct (tts_models st !! (l +:+ "_tts")) eqn:Hl.
        -- rewrite Hl. eexists; reflexivity.
        -- destruct (mms_tokenizer_load name); simpl;
             rewrite lookup_insert_eq; eexists; reflexivity.
    + injection Hk as <-. simpl. unfold get_translation_model. simpl.
      apply dict_get_present.
      destruct (translation_models st !! (s +:+ "_to_" +:+ t)) eqn:Hl.
      * rewrite Hl. eexists; reflexivity.
      * destruct (marian_model_name s t); simpl; rewrite lookup_insert_eq;
          eexists; reflexivity.
Qed.

(** A run that asks for the English voice twice while Coqui cannot load,
    and for two Marian models, one of which fails: one attempt per key,
    the sentinel is stored, and the second English request is answered
    from the cache. *)
Lemma C8_one_load_per_key_witness :
  let rs := [TtsReq "en"; MtReq "en" "ml"; TtsReq "en"; MtReq "en" "hi"; MtReq "en" "ml"] in
  let st := serve_all None (fun _ => Some 1%nat) (fun _ => None)
              (fun n => if String.eqb n "Helsinki-NLP/opus-mt-en-ml" then None
                        else Some 7%nat) caches_init rs in
  NoDup (load_log st) /\
  load_log st = [TtsKey "en_tts"; MtKey "en_to_ml"; MtKey "en_to_hi"] /\
  cache_lookup st (TtsKey "en_tts") = Some None /\
  serve None (fun _ => Some 1%nat) (fun _ => None) (fun _ => Some 7%nat) st (TtsReq "en")
    = (None, st).
Proof.
  cbv zeta.
  destruct (C8_one_load_per_key None (fun _ => Some 1%nat) (fun _ => None)
              (fun n => if String.eqb n "Helsinki-NLP/opus-mt-en-ml" then None
                        else Some 7%nat)) as (H1 & _ & _).
  destruct (C8_one_load_per_key None (fun _ => Some 1%nat) (fun _ => None)
              (fun _ => Some 7%nat)) as (_ & H2 & _).
  split; [apply H1|]. split; [vm_compute; reflexivity|].
  split; [vm_compute; reflexivity|].
  apply (H2 _ (TtsReq "en") (TtsKey "en_tts") None); vm_compute; reflexivity.
Defined.

(** ** Claims on composition and on the dubbed track *)

Lemma length_mix (xs ys : Frames) : length (mix xs ys) = Nat.min (length xs) (length ys).
Proof.
  revert ys. induction xs as [|x xs IH]; intros [|y ys]; simpl; try reflexivity.
  rewrite IH. reflexivity.
Qed.

Lemma length_overlay (base : Frames) (pos : nat) (seg : Frames) :
  length (overlay base pos seg) = length base.
Proof.
  unfold overlay. rewrite !length_app, length_mix, !length_firstn, !length_skipn.
  lia.
Qed.

Lemma length_overlay_all (dec : Audio -> option Frames) (fs : FS) (base : Frames)
    (segs : list TtsSeg) :
  length (overlay_all dec fs base segs) = length base.
Proof.
  revert base. induction segs as [|s segs IH]; intro base; simpl; [reflexivity|].
  destruct (fs (ts_file s)) as [a|]; [|apply IH].
  destruct (dec a) as [fr|]; [|apply IH].
  rewrite IH. apply length_overlay.
Qed.

Lemma length_silent (n : nat) : length (silent n) = n.
Proof. apply repeat_length. Qed.


(** C9 (counterexample): composing an empty clip list for a
    10.000488 s video starts from, and returns, a silent buffer of
    10000 ms, not of the total duration. *)
Lemma C9_buffer_is_truncated :
  merge_with_timing true demo_decode true fs_empty [] odd_total
    = Some (PydubWav (silent (Z.to_nat 10000))) /\
  ~ (track_duration (PydubWav (silent (Z.to_nat 10000))) == odd_total).
Proof. split; [vm_compute; reflexivity | vm_compute; intro H; discriminate H]. Qed.

(** C9 (amended): with pydub available, [merge_with_timing] starts from a
    silent buffer of [int(total * 1000)] ms (the total duration truncated
    to whole milliseconds), overlays in list order each clip whose file
    exists and decodes, at offset [int(start * 1000)] ms, skips clips whose
    file is missing or does not decode, and never changes the buffer's
    length; with an empty clip list the result is that silent buffer. *)
Theorem C9_compose (dec : Audio -> option Frames) (concat_ok : bool) (fs : FS)
    (segs : list TtsSeg) (total : Q) :
  merge_with_timing true dec concat_ok fs segs total
    = Some (PydubWav (overlay_all dec fs (silent (to_ms total)) segs)) /\
  length (overlay_all dec fs (silent (to_ms total)) segs) = to_ms total /\
  (segs = [] -> overlay_all dec fs (silent (to_ms total)) segs = silent (to_ms total)) /\
  (forall base s rest, fs (ts_file s) = None ->
     overlay_all dec fs base (s :: rest) = overlay_all dec fs base rest) /\
  (forall base s rest a, fs (ts_file s) = Some a -> dec a = None ->
     overlay_all dec fs base (s :: rest) = overlay_all dec fs base rest) /\
  (forall base s rest a fr, fs (ts_file s) = Some a -> dec a = Some fr ->
     overlay_all dec fs base (s :: rest)
       = overlay_all dec fs (overlay base (to_ms (ts_start s)) fr) rest).
Proof.
  split; [reflexivity|].
  split; [rewrite length_overlay_all; apply length_silent|].
  split; [intros ->; reflexivity|].
  split; [intros base s rest H; simpl; rewrite H; reflexivity|].
  split; [intros base s rest a H Hd; simpl; rewrite H, Hd; reflexivity|].
  intros base s rest a fr H Hd. simpl. rewrite H, Hd. reflexivity.
Qed.

Lemma C9_compose_witness :
  let segs := [mkTtsSeg 0 (1#100) 2 "Hi" raw0] in
  let fs := fs_with (mkAudio (1#100) []) in
  merge_with_timing true demo_decode true fs segs (1#20)
    = Some (PydubWav (overlay_all demo_decode fs (silent (to_ms (1#20))) segs)) /\
  overlay_all demo_decode fs (silent (to_ms (1#20))) segs
    = (repeat 0%Z 10 ++ repeat 1%Z 10 ++ repeat 0%Z 30)%list.
Proof.
  cbv zeta. split.
  - apply (C9_compose demo_decode true (fs_with (mkAudio (1#100) []))
             [mkTtsSeg 0 (1#100) 2 "Hi" raw0] (1#20)).
  - vm_compute. reflexivity.
Defined.





(** ** Claims on [create_dub_track] and [main] *)

Lemma adjust_audio_speed_other_paths (pf : Audio -> bool) (mf : Audio -> list Q -> bool)
    (fs fs' : FS) (inp out p : Path) (d : Q) :
  adjust_audio_speed pf mf fs inp out d = Some fs' -> p <> out -> fs' p = fs p.
Proof.
  unfold adjust_audio_speed. intros H Hp.
  assert (Hw : forall a, fs_write fs out a p = fs p).
  { intro a. unfold fs_write. destruct (decide (p = out)); [contradiction | reflexivity]. }
  destruct (fs inp) as [a|]; [|discriminate].
  destruct (pf a); [injection H as <-; apply Hw|].
  destruct (qle (audio_duration a) 0 || qle d 0); [injection H as <-; apply Hw|].
  destruct (mf a _); injection H as <-; [reflexivity | apply Hw].
Qed.

Lemma adjust_audio_speed_total (pf : Audio -> bool) (mf : Audio -> list Q -> bool)
    (fs : FS) (inp out : Path) (d : Q) :
  exists_ fs inp = true -> exists fs', adjust_audio_speed pf mf fs inp out d = Some fs'.
Proof.
  unfold exists_, adjust_audio_speed. destruct (fs inp) as [a|]; [|discriminate].
  intros _. destruct (pf a); [eexists; reflexivity|].
  destruct (qle (audio_duration a) 0 || qle d 0); [eexists; reflexivity|].
  destruct (mf a _); eexists; reflexivity.
Qed.

Section Totality.

Variable w : World.

Lemma dub_segment_total (lang : string) (model : option Handle) (st : Caches)
    (i : nat) (seg : Segment) (acc : FS * list TtsSeg) :
  exists acc', dub_segment w lang model st i seg acc = Some acc'.
Proof.
  destruct acc as [fs out]. unfold dub_segment.
  destruct (_ || _); [eexists; reflexivity|].
  destruct (String.length _ =? 0)%nat; [eexists; reflexivity|].
  destruct (generate_tts_with_model w st fs _ _ _ _) as [ok fs1].
  destruct (ok && exists_ fs1 (RawClip lang i)) eqn:E; [|eexists; reflexivity].
  apply andb_true_iff in E as [_ E].
  destruct (adjust_audio_speed_total (w_ffprobe_fails w) (w_ffmpeg_fails w) fs1
              (RawClip lang i) (AdjClip lang i) (seg_end seg - seg_start seg) E)
    as [fs2 Hfs2].
  rewrite Hfs2. eexists; reflexivity.
Qed.

Lemma dub_segments_total (lang : string) (model : option Handle) (st : Caches)
    (segs : list Segment) : forall (i : nat) (acc : FS * list TtsSeg),
  exists acc', dub_segments w lang model st i segs acc = Some acc'.
Proof.
  induction segs as [|seg segs IH]; intros i acc; simpl; [eexists; reflexivity|].
  destruct (dub_segment_total lang model st i seg acc) as [acc' ->].
  apply IH.
Qed.

(** No exception escapes [create_dub_track]. *)
Lemma create_dub_track_total (st : Caches) (fs : FS) (segs : list Segment)
    (lang : string) (total : Q) :
  exists r, create_dub_track w st fs segs lang total = Some r.
Proof.
  unfold create_dub_track.
  destruct (get_tts_model_for_language _ _ _ st lang) as [model st1].
  destruct (dub_segments_total lang model st1 segs 0 (fs, [])) as [[fs' tts] ->].
  eexists; reflexivity.
Qed.

Lemma dub_target_total (detected : string) (wen base : list Segment) (total : Q)
    (t : string) (acc : Caches * FS * list Track) :
  exists acc', dub_target w detected wen base total t acc = Some acc'.
Proof.
  destruct acc as [[st fs] tracks]. unfold dub_target.
  destruct (String.eqb t "en"); [eexists; reflexivity|].
  destruct (String.eqb detected t); [eexists; reflexivity|].
  destruct (translate_segments w st wen base "en" t) as [tr st1].
  destruct (create_dub_track_total st1 fs tr t total) as [[[f fs'] st2] ->].
  destruct f; eexists; reflexivity.
Qed.

Lemma dub_targets_total (detected : string) (wen base : list Segment) (total : Q)
    (langs : list string) : forall acc : Caches * FS * list Track,
  exists acc', dub_targets w detected wen base total langs acc = Some acc'.
Proof.
  induction langs as [|t langs IH]; intro acc; simpl; [eexists; reflexivity|].
  destruct (dub_target_total detected wen base total t acc) as [acc' ->].
  apply IH.
Qed.

End Totality.

(** C10: when synthesis succeeded (the raw file exists) but the speed
    adjusted file was not produced, [create_dub_track] keeps the segment
    with the raw clip as its file, at the segment's own start and end. *)
Theorem C10_raw_clip_kept (w : World) (lang : string) (model : option Handle)
    (st : Caches) (i : nat) (seg : Segment) (fs : FS) (out : list TtsSeg)
    (text : string) (fs1 fs2 : FS) :
  String.length (seg_text seg) <> 0%nat -> (3 <= stripped_len (seg_text seg))%nat ->
  Sanitizer.clean_translation_text (seg_text seg) = text ->
  String.length text <> 0%nat ->
  generate_tts_with_model w st fs text (RawClip lang i) lang model = (true, fs1) ->
  exists_ fs1 (RawClip lang i) = true ->
  adjust_audio_speed (w_ffprobe_fails w) (w_ffmpeg_fails w) fs1 (RawClip lang i)
    (AdjClip lang i) (seg_end seg - seg_start seg) = Some fs2 ->
  fs2 (AdjClip lang i) = None ->
  dub_segment w lang model st i seg (fs, out)
    = Some (fs2, (out ++ [mkTtsSeg i (seg_start seg) (seg_end seg) text (RawClip lang i)])%list) /\
  fs2 (RawClip lang i) = fs1 (RawClip lang i).
Proof.
  intros Hlen H3 Hclean Htext Hgen Hraw Hadj Hnone.
  assert (Hother : fs2 (RawClip lang i) = fs1 (RawClip lang i))
    by (apply (adjust_audio_speed_other_paths _ _ _ _ _ _ _ _ Hadj); discriminate).
  split; [|exact Hother].
  unfold dub_segment.
  apply Nat.eqb_neq in Hlen. apply Nat.ltb_ge in H3. rewrite Hlen, H3. simpl.
  rewrite Hclean. apply Nat.eqb_neq in Htext. rewrite Htext.
  rewrite Hgen, Hraw. simpl. rewrite Hadj.
  unfold exists_ at 1. rewrite Hnone. reflexivity.
Qed.

Lemma C10_raw_clip_kept_witness :
  let seg := mkSeg 0 2 "hello" in
  let fs1 := fs_write fs_empty (RawClip "en" 0) (mkAudio (inject_Z 5 / 2) []) in
  dub_segment demo_world_ffmpeg_down "en" None caches_init 0 seg (fs_empty, [])
    = Some (fs1, [mkTtsSeg 0 0 2 "Hello" (RawClip "en" 0)]) /\
  fs1 (RawClip "en" 0) = fs1 (RawClip "en" 0).
Proof.
  cbv zeta.
  apply (C10_raw_clip_kept demo_world_ffmpeg_down "en" None caches_init 0
           (mkSeg 0 2 "hello") fs_empty [] "Hello"
           (fs_write fs_empty (RawClip "en" 0) (mkAudio (inject_Z 5 / 2) []))
           (fs_write fs_empty (RawClip "en" 0) (mkAudio (inject_Z 5 / 2) [])));
    try discriminate; try reflexivity; vm_compute; try lia; reflexivity.
Defined.

(** C5 (code bug): the raw text ["ab [x]"] passes [create_dub_track]'s
    length check (line 372, made before cleaning), cleans to the
    2-character ["Ab"], which is not empty (line 377) and passes
    [generate_tts_with_model]'s own threshold of 2 (line 195): it is
    synthesized and kept as a clip.  The sibling pipeline
    ([dub_to_english.py]) skips it.  The sanitizer returns [""] on empty
    input. *)
Theorem C5_short_cleaned_text_synthesized :
  Sanitizer.clean_translation_text "" = "" /\
  Sanitizer.clean_translation_text "ab [x]" = "Ab" /\
  dub_to_english_skips "ab [x]" = true /\
  match dub_segment demo_world "en" None caches_init 0 (mkSeg 0 2 "ab [x]") (fs_empty, []) with
  | Some (_, [e]) => ts_text e = "Ab" /\ String.length (ts_text e) = 2%nat
  | _ => False
  end.
Proof.
  split; [reflexivity|]. split; [reflexivity|]. split; [reflexivity|].
  vm_compute. split; reflexivity.
Qed.

(** C3 (counterexample): asked for Malayalam and French, where no English
    to French model is registered, the run still produces a French track
    (the English text spoken by the French voice) and lists it in the
    manifest next to the Malayalam one. *)
Lemma C3_unrouted_language_listed :
  match main demo_world (demo_env (Some 10)) (mkArgs "ml,fr" false false) with
  | Done m => In ("fr (AI Dubbed)", "fr") (audio_tracks m) /\
              In ("Malayalam (AI Dubbed)", "ml") (audio_tracks m)
  | Exit _ => False
  end.
Proof. vm_compute. split; [right; right; left | right; left]; reflexivity. Qed.

(** C3 (amended): for a requested target language [t] (not English, not
    the detected language) for which no English-to-[t] model is obtained
    (none registered, or its load fails), the language is not skipped:
    [translate_segments] hands back the base segments untranslated,
    [create_dub_track] dubs them without raising, and the track is
    appended (and so listed in the manifest) whenever a track file is
    written; the run goes on with the next language. *)
Theorem C3_unrouted_language_dubbed_untranslated (w : World) (detected : string)
    (wen base : list Segment) (total : Q) (t : string) (st : Caches) (fs : FS)
    (tracks : list Track) :
  t <> "en" -> detected <> t ->
  fst (get_translation_model (w_marian_load w) st "en" t) = None ->
  translate_segments w st wen base "en" t
    = (base, snd (get_translation_model (w_marian_load w) st "en" t)) /\
  exists f fs' st',
    create_dub_track w (snd (get_translation_model (w_marian_load w) st "en" t))
      fs base t total = Some (f, fs', st') /\
    dub_target w detected wen base total t (st, fs, tracks)
      = Some (st', fs',
              (tracks ++ match f with
                         | Some file => [mkTrack (Some file)
                                           (language_name t +:+ " (AI Dubbed)") t]
                         | None => []
                         end)%list).
Proof.
  intros Ht Hd Hnone.
  assert (Htr : translate_segments w st wen base "en" t
                = (base, snd (get_translation_model (w_marian_load w) st "en" t))).
  { unfold translate_segments.
    apply String.eqb_neq in Ht. rewrite Ht.
    change (String.eqb "en" "en") with true. cbn [andb negb].
    destruct (get_translation_model (w_marian_load w) st "en" t) as [m st1].
    simpl in Hnone. subst m. reflexivity. }
  split; [exact Htr|].
  destruct (create_dub_track_total w (snd (get_translation_model (w_marian_load w) st "en" t))
              fs base t total) as [[[f fs'] st'] Hc].
  exists f, fs', st'. split; [exact Hc|].
  unfold dub_target.
  apply String.eqb_neq in Ht. apply String.eqb_neq in Hd. rewrite Ht, Hd.
  rewrite Htr, Hc. destruct f; [reflexivity | rewrite app_nil_r; reflexivity].
Qed.

Lemma C3_unrouted_language_dubbed_untranslated_witness :
  exists f fs' st',
    create_dub_track demo_world (snd (get_translation_model (w_marian_load demo_world)
                                        caches_init "en" "fr"))
      fs_empty [mkSeg 0 2 "hello"] "fr" 10 = Some (f, fs', st') /\
    dub_target demo_world "en" [] [mkSeg 0 2 "hello"] 10 "fr" (caches_init, fs_empty, [])
      = Some (st', fs',
              ([] ++ match f with
                     | Some file => [mkTrack (Some file) (language_name "fr" +:+ " (AI Dubbed)") "fr"]
                     | None => []
                     end)%list).
Proof.
  apply (C3_unrouted_language_dubbed_untranslated demo_world "en" [] [mkSeg 0 2 "hello"]
           10 "fr" caches_init fs_empty []); [discriminate | discriminate | reflexivity].
Defined.

(** C4 (counterexample): ffprobe cannot read the duration; the run is not
    aborted: it completes, with a video duration of 0. *)
Lemma C4_duration_failure_not_fatal :
  match main demo_world (demo_env None) (mkArgs "" false false) with
  | Done m => manifest_duration m == 0
  | Exit _ => False
  end.
Proof. vm_compute. reflexivity. Qed.

(** C4 (amended): a failed audio extraction aborts the run with exit
    status 1.  A failure to obtain the total duration does not abort: the
    run proceeds exactly as for a 0-second video.  Extraction is not the
    only aborting failure: a missing input file, an exception from
    Whisper's transcription (or its English translation, for a non-English
    source), a failed copy of the extracted audio, and a manifest file that
    cannot be written all end the run with status 1 as well. *)
Theorem C4_aborting_failures (w : World) (env : RunEnv) (args : Args) :
  (env_input_exists env = false -> main w env args = Exit 1) /\
  (env_input_exists env = true -> env_extract_ok env = false -> main w env args = Exit 1) /\
  (env_probe env = None ->
     main w env args
       = main w (mkRunEnv (env_input_exists env) (env_extract_ok env) (Some 0)
                   (env_transcribe env) (env_translate_en env) (env_copy_ok env)
                   (env_mux_ok env) (env_embed_raises env) (env_manifest_ok env)) args) /\
  (env_input_exists env = true -> env_extract_ok env = true ->
     env_transcribe env = None -> main w env args = Exit 1) /\
  (forall detected segs,
     env_input_exists env = true -> env_extract_ok env = true ->
     env_transcribe env = Some (detected, segs) -> detected <> "en" ->
     env_translate_en env = None -> main w env args = Exit 1) /\
  (env_copy_ok env = false -> main w env args = Exit 1) /\
  (env_manifest_ok env = false -> main w env args = Exit 1).
Proof.
  destruct env as [ie eo pr tr te co mo er mf]; simpl.
  split; [intros ->; reflexivity|].
  split; [intros -> ->; reflexivity|].
  split; [intros ->; reflexivity|].
  split; [intros -> -> ->; reflexivity|].
  split; [|split].
  - intros detected segs -> -> -> Hd ->. unfold main. simpl.
    apply String.eqb_neq in Hd. rewrite Hd.
    destruct co; reflexivity.
  - intros ->. unfold main. cbn [negb env_input_exists env_extract_ok env_copy_ok].
    destruct ie, eo; try reflexivity. simpl.
    destruct tr as [[d sg]|]; reflexivity.
  - intros ->. unfold main. cbn [negb env_input_exists env_extract_ok env_copy_ok
      env_transcribe env_translate_en env_manifest_ok env_embed_raises env_mux_ok
      env_probe].
    destruct ie, eo; try reflexivity. cbv zeta.
    destruct tr as [[d sg]|]; [|reflexivity].
    destruct co; [|reflexivity]. cbn [negb].
    repeat match goal with
           | |- context [match ?x with _ => _ end] =>
               lazymatch x with
               | context [match _ with _ => _ end] => fail
               | _ => destruct x
               end
           end; try reflexivity;
    destruct (arg_embed_tracks args && _ && er); reflexivity.
Qed.

Lemma C4_aborting_failures_witness :
  main demo_world (mkRunEnv true false (Some 10) None None true (fun _ => true) false true)
    (mkArgs "" false false) = Exit 1 /\
  main demo_world (demo_env None) (mkArgs "" false false)
    = main demo_world (demo_env (Some 0)) (mkArgs "" false false) /\
  main demo_world (mkRunEnv true true (Some 10) (Some ("en", [mkSeg 0 2 "hello"])) None
                     false (fun _ => true) false true) (mkArgs "" false false) = Exit 1 /\
  main demo_world (mkRunEnv true true (Some 10) (Some ("en", [mkSeg 0 2 "hello"])) None
                     true (fun _ => true) false false) (mkArgs "" false false) = Exit 1.
Proof.
  destruct (C4_aborting_failures demo_world (mkRunEnv true false (Some 10) None None
              true (fun _ => true) false true) (mkArgs "" false false)) as (_ & H2 & _).
  destruct (C4_aborting_failures demo_world (demo_env None) (mkArgs "" false false))
    as (_ & _ & H3 & _).
  destruct (C4_aborting_failures demo_world
              (mkRunEnv true true (Some 10) (Some ("en", [mkSeg 0 2 "hello"])) None
                 false (fun _ => true) false true) (mkArgs "" false false))
    as (_ & _ & _ & _ & _ & H6 & _).
  destruct (C4_aborting_failures demo_world
              (mkRunEnv true true (Some 10) (Some ("en", [mkSeg 0 2 "hello"])) None
                 true (fun _ => true) false false) (mkArgs "" false false))
    as (_ & _ & _ & _ & _ & _ & H7).
  split; [apply H2; reflexivity|].
  split; [apply H3; reflexivity|].
  split; [apply H6; reflexivity|].
  apply H7; reflexivity.
Defined.

(* ------------------------------------------------------------------ *)
(** ** Properties of [clean_translation_text] *)

Section SanitizerShape.
Local Close Scope Q_scope.

Lemma list_ascii_append (s t : string) :
  list_ascii_of_string (s ++ t) = (list_ascii_of_string s ++ list_ascii_of_string t)%list.
Proof. induction s as [|c s IH]; simpl; [reflexivity | now rewrite IH]. Qed.

Lemma list_ascii_rev (s : string) :
  list_ascii_of_string (Sanitizer.rev_string s) = rev (list_ascii_of_string s).
Proof.
  induction s as [|c s IH]; simpl; [reflexivity|].
  rewrite list_ascii_append, IH. reflexivity.
Qed.

Lemma drop_spaces_suffix (s : string) :
  exists pre, list_ascii_of_string s = (pre ++ list_ascii_of_string (Sanitizer.drop_spaces s))%list.
Proof.
  induction s as [|c s IH]; simpl; [exists []; reflexivity|].
  destruct (Sanitizer.is_space c).
  - destruct IH as [pre ->]. exists (c :: pre). reflexivity.
  - exists []. reflexivity.
Qed.

Lemma drop_spaces_head (s : string) :
  match list_ascii_of_string (Sanitizer.drop_spaces s) with
  | c :: _ => Sanitizer.is_space c = false
  | [] => True
  end.
Proof.
  induction s as [|c s IH]; simpl; [exact I|].
  destruct (Sanitizer.is_space c) eqn:E; [exact IH | exact E].
Qed.

Lemma drop_punct_suffix (s : string) :
  exists pre, list_ascii_of_string s = (pre ++ list_ascii_of_string (Sanitizer.drop_punct s))%list.
Proof.
  induction s as [|c s IH]; simpl; [exists []; reflexivity|].
  destruct (Sanitizer.is_punct c).
  - destruct IH as [pre ->]. exists (c :: pre). reflexivity.
  - exists []. reflexivity.
Qed.

Lemma drop_leading_punct_suffix (s : string) :
  exists pre, list_ascii_of_string s
              = (pre ++ list_ascii_of_string (Sanitizer.drop_leading_punct s))%list.
Proof.
  unfold Sanitizer.drop_leading_punct.
  destruct (drop_spaces_suffix s) as [pre1 H1].
  destruct (Sanitizer.drop_spaces s) as [|c r] eqn:E; [exists []; reflexivity|].
  destruct (Sanitizer.is_punct c); [|exists []; reflexivity].
  destruct (drop_punct_suffix (String c r)) as [pre2 H2].
  exists (pre1 ++ pre2)%list. rewrite H1, H2, app_assoc. reflexivity.
Qed.

Lemma py_strip_infix (s : string) :
  exists pre post, list_ascii_of_string s
    = (pre ++ list_ascii_of_string (Sanitizer.py_strip s) ++ post)%list.
Proof.
  unfold Sanitizer.py_strip.
  destruct (drop_spaces_suffix s) as [pre H1].
  destruct (drop_spaces_suffix (Sanitizer.rev_string (Sanitizer.drop_spaces s))) as [pre2 H2].
  rewrite list_ascii_rev in H2.
  exists pre, (rev pre2). rewrite list_ascii_rev, H1.
  f_equal. rewrite <- rev_app_distr, <- H2, rev_involutive. reflexivity.
Qed.

Lemma py_strip_ends (s : string) :
  list_ascii_of_string (Sanitizer.py_strip s) = [] \/
  ((exists c l, list_ascii_of_string (Sanitizer.py_strip s) = c :: l /\
                Sanitizer.is_space c = false) /\
   (exists l d, list_ascii_of_string (Sanitizer.py_strip s) = (l ++ [d])%list /\
                Sanitizer.is_space d = false)).
Proof.
  unfold Sanitizer.py_strip. rewrite list_ascii_rev.
  set (x := Sanitizer.drop_spaces s).
  set (z := Sanitizer.drop_spaces (Sanitizer.rev_string x)).
  pose proof (drop_spaces_head (Sanitizer.rev_string x)) as Hz. fold z in Hz.
  pose proof (drop_spaces_head s) as Hx. fold x in Hx.
  destruct (drop_spaces_suffix (Sanitizer.rev_string x)) as [pre Hy]. fold z in Hy.
  rewrite list_ascii_rev in Hy.
  destruct (list_ascii_of_string z) as [|c r] eqn:Ez; [left; reflexivity|].
  right. destruct (exists_last (l := c :: r) ltac:(discriminate)) as [r' [e Er]].
  destruct (list_ascii_of_string x) as [|h t] eqn:Ex; [simpl in Hy; destruct pre; discriminate|].
  simpl in Hy. rewrite Er, app_assoc in Hy. apply app_inj_tail in Hy as [_ <-].
  split.
  - exists h, (rev r'). split; [|exact Hx].
    rewrite Er, rev_app_distr. reflexivity.
  - exists (rev r), c. split; [reflexivity | exact Hz].
Qed.

(** A string made only of (ASCII) whitespace strips to the empty string. *)
Lemma blank_strip_empty (s : string) :
  Forall (fun c => Sanitizer.is_space c = true) (list_ascii_of_string s) ->
  Sanitizer.py_strip s = "".
Proof.
  intros H. destruct (py_strip_ends s) as [E | [(c & l & Ec & Hc) _]].
  - rewrite <- (string_of_list_ascii_of_string (Sanitizer.py_strip s)), E. reflexivity.
  - exfalso. destruct (py_strip_infix s) as (pre & post & Ex).
    rewrite Ex, Ec in H. apply List.Forall_app in H as [_ H].
    inversion H as [|x y Hx]. congruence.
Qed.

Lemma single_spaced_infix (pre l post : list ascii) :
  single_spaced (pre ++ l ++ post)%list -> single_spaced l.
Proof.
  intros [H1 H2]. split.
  - intros c Hc. apply H1. apply in_or_app. right. apply in_or_app. left. exact Hc.
  - intros l1 l2 c d ->. apply (H2 (pre ++ l1)%list (l2 ++ post)%list).
    rewrite <- !app_assoc. reflexivity.
Qed.

Lemma collapse_go_single (b : bool) (s : string) :
  single_spaced (list_ascii_of_string (Sanitizer.collapse_go b s)) /\
  (b = true -> match list_ascii_of_string (Sanitizer.collapse_go b s) with
               | c :: _ => Sanitizer.is_space c = false
               | [] => True
               end).
Proof.
  revert b. induction s as [|c s IH]; intro b; simpl.
  - split; [split; [intros ? [] | intros [|? ?] ? ? ? H; discriminate H] | intros; exact I].
  - destruct (Sanitizer.is_space c) eqn:Ec.
    + destruct b.
      * exact (IH true).
      * destruct (IH true) as [[H1 H2] H3]. specialize (H3 eq_refl).
        split; [|discriminate]. split.
        -- intros x [<- | Hx] Hs; [reflexivity | exact (H1 x Hx Hs)].
        -- intros [|y l1] l2 x d E; simpl in E; injection E as <- E.
           ++ rewrite E in H3. right. exact H3.
           ++ exact (H2 l1 l2 x d E).
    + destruct (IH false) as [[H1 H2] _]. split; [|intros _; exact Ec]. split.
      * intros x [<- | Hx] Hs; [rewrite Ec in Hs; discriminate | exact (H1 x Hx Hs)].
      * intros [|y l1] l2 x d E; simpl in E; injection E as <- E.
        -- left. exact Ec.
        -- exact (H2 l1 l2 x d E).
Qed.

Lemma to_upper_facts (c : ascii) :
  Sanitizer.is_space (Sanitizer.to_upper c) = Sanitizer.is_space c /\
  (Sanitizer.is_space c = true -> Sanitizer.to_upper c = c) /\
  Sanitizer.is_lower (Sanitizer.to_upper c) = false /\
  (Sanitizer.is_upper c = true -> Sanitizer.is_lower c = false).
Proof.
  destruct c as [[] [] [] [] [] [] [] []]; vm_compute; repeat split; congruence.
Qed.

Lemma list_ascii_capitalize (s : string) :
  list_ascii_of_string (Sanitizer.capitalize_first s)
  = match list_ascii_of_string s with
    | c :: l => (if Sanitizer.is_upper c then c else Sanitizer.to_upper c) :: l
    | [] => []
    end.
Proof. destruct s as [|c s]; simpl; [reflexivity|]. destruct (Sanitizer.is_upper c); reflexivity. Qed.

Lemma clean_unfold (t : string) :
  t <> EmptyString ->
  Sanitizer.clean_translation_text t
  = Sanitizer.capitalize_first (Sanitizer.py_strip (Sanitizer.drop_leading_punct
      (Sanitizer.collapse_spaces (Sanitizer.remove_artifacts t)))).
Proof. destruct t; [contradiction | reflexivity]. Qed.

Lemma clean_single_spaced (text : string) :
  single_spaced (list_ascii_of_string (Sanitizer.clean_translation_text text)).
Proof.
  destruct (String.eqb text "") eqn:E.
  - apply String.eqb_eq in E. subst. split; [intros ? [] | intros [|? ?] ? ? ? H; discriminate H].
  - apply String.eqb_neq in E. rewrite (clean_unfold _ E), list_ascii_capitalize.
    set (u := Sanitizer.collapse_spaces (Sanitizer.remove_artifacts text)).
    assert (Hu : single_spaced (list_ascii_of_string (Sanitizer.py_strip (Sanitizer.drop_leading_punct u)))).
    { destruct (collapse_go_single false (Sanitizer.remove_artifacts text)) as [Hc _].
      fold (Sanitizer.collapse_spaces (Sanitizer.remove_artifacts text)) in Hc. fold u in Hc.
      destruct (drop_leading_punct_suffix u) as [pre1 H1].
      destruct (py_strip_infix (Sanitizer.drop_leading_punct u)) as (pre2 & post & H2).
      rewrite H1, H2, app_assoc in Hc. exact (single_spaced_infix _ _ _ Hc). }
    destruct (list_ascii_of_string (Sanitizer.py_strip (Sanitizer.drop_leading_punct u)))
      as [|c l]; [exact Hu|].
    destruct Hu as [H1 H2].
    assert (Hc : Sanitizer.is_space (if Sanitizer.is_upper c then c else Sanitizer.to_upper c)
                 = Sanitizer.is_space c /\
                 (Sanitizer.is_space c = true ->
                  (if Sanitizer.is_upper c then c else Sanitizer.to_upper c) = c)).
    { destruct (Sanitizer.is_upper c); [split; auto|].
      destruct (to_upper_facts c) as (A & B & _). split; assumption. }
    destruct Hc as [Hc1 Hc2]. split.
    + intros x [<- | Hx] Hs.
      * rewrite Hc1 in Hs. rewrite (Hc2 Hs). apply H1; [left; reflexivity | exact Hs].
      * apply H1; [right; exact Hx | exact Hs].
    + intros [|y l1] l2 x d Ex; simpl in Ex; injection Ex as <- Ex.
      * rewrite Hc1. apply (H2 [] l2 c d). simpl. rewrite Ex. reflexivity.
      * apply (H2 (c :: l1) l2 x d). simpl. rewrite Ex. reflexivity.
Qed.

Lemma clean_ends (text : string) :
  list_ascii_of_string (Sanitizer.clean_translation_text text) = [] \/
  ((exists c l, list_ascii_of_string (Sanitizer.clean_translation_text text) = c :: l /\
                Sanitizer.is_space c = false /\ Sanitizer.is_lower c = false) /\
   (exists l d, list_ascii_of_string (Sanitizer.clean_translation_text text) = (l ++ [d])%list /\
                Sanitizer.is_space d = false)).
Proof.
  destruct (String.eqb text "") eqn:E.
  - apply String.eqb_eq in E. subst. left. reflexivity.
  - apply String.eqb_neq in E. rewrite (clean_unfold _ E), list_ascii_capitalize.
    destruct (py_strip_ends (Sanitizer.drop_leading_punct
                (Sanitizer.collapse_spaces (Sanitizer.remove_artifacts text))))
      as [H | [(c & l & Hcl & Hc) (l' & d & Hld & Hd)]];
      [rewrite H; left; reflexivity|].
    right. rewrite Hcl.
    set (c' := if Sanitizer.is_upper c then c else Sanitizer.to_upper c).
    assert (Hc' : Sanitizer.is_space c' = false /\ Sanitizer.is_lower c' = false).
    { unfold c'. destruct (to_upper_facts c) as (A & _ & C & D).
      destruct (Sanitizer.is_upper c) eqn:U; [split; [exact Hc | exact (D eq_refl)]|].
      split; [rewrite A; exact Hc | exact C]. }
    split; [exists c', l; split; [reflexivity | exact Hc']|].
    rewrite Hcl in Hld. destruct l' as [|y l'].
    + simpl in Hld. injection Hld as -> ->. exists [], c'. split; [reflexivity | apply Hc'].
    + simpl in Hld. injection Hld as -> ->. exists (c' :: l'), d. split; [reflexivity | exact Hd].
Qed.

(** X1: the text returned by [clean_translation_text] has no whitespace
    other than the plain space and never two whitespace characters in a
    row; when it is not empty it neither starts nor ends with whitespace,
    and its first character is not a lowercase letter. *)
Theorem clean_translation_text_shape (text : string) :
  single_spaced (list_ascii_of_string (Sanitizer.clean_translation_text text)) /\
  (list_ascii_of_string (Sanitizer.clean_translation_text text) = [] \/
   ((exists c l, list_ascii_of_string (Sanitizer.clean_translation_text text) = c :: l /\
                 Sanitizer.is_space c = false /\ Sanitizer.is_lower c = false) /\
    (exists l d, list_ascii_of_string (Sanitizer.clean_translation_text text) = (l ++ [d])%list /\
                 Sanitizer.is_space d = false))).
Proof. split; [apply clean_single_spaced | apply clean_ends]. Qed.

End SanitizerShape.

(* ------------------------------------------------------------------ *)
(** ** Properties of argument parsing and [detect_mixed_languages] *)

Section TargetsAndScripts.
Local Close Scope Q_scope.

Lemma split_comma_go_nocomma (cur s : string) :
  ~ In ","%char (list_ascii_of_string cur) ->
  Forall (fun x => ~ In ","%char (list_ascii_of_string x)) (split_comma_go cur s).
Proof.
  revert cur. induction s as [|c s IH]; intros cur Hcur; simpl.
  - constructor; [exact Hcur | constructor].
  - destruct (Ascii.eqb c ","%char) eqn:Ec.
    + constructor; [exact Hcur|]. apply IH. intros [].
    + apply IH. unfold "+:+". rewrite list_ascii_append. simpl.
      intros Hin. apply in_app_or in Hin as [Hin | [Hin | []]]; [exact (Hcur Hin)|].
      subst c. discriminate Ec.
Qed.

(** X2: every language code [main] reads from [--target_langs] is
    non-empty, holds no comma, and neither starts nor ends with an ASCII
    whitespace character.  (The model's [str.strip] removes the ASCII
    whitespace characters only; on those it agrees with Python.) *)
Theorem parse_target_langs_clean (s : string) :
  Forall (fun l =>
            l <> "" /\ ~ In ","%char (list_ascii_of_string l) /\
            (exists c r, list_ascii_of_string l = c :: r /\ Sanitizer.is_space c = false) /\
            (exists r d, list_ascii_of_string l = (r ++ [d])%list /\ Sanitizer.is_space d = false))
    (parse_target_langs s).
Proof.
  unfold parse_target_langs. apply Forall_forall. intros l Hl.
  apply list_elem_of_filter in Hl as [Hne Hl]. apply list_elem_of_In, in_map_iff in Hl as (x & <- & Hx).
  pose proof (split_comma_go_nocomma "" s ltac:(intros [])) as H.
  fold (split_comma s) in H. rewrite List.Forall_forall in H. specialize (H x Hx).
  apply Is_true_true, negb_true_iff, Nat.eqb_neq in Hne.
  destruct (py_strip_ends x) as [E | [Hh Hl]].
  - exfalso. apply Hne. rewrite <- (string_of_list_ascii_of_string (Sanitizer.py_strip x)), E.
    reflexivity.
  - split; [intros E; rewrite E in Hne; apply Hne; reflexivity|].
    split; [|split; assumption].
    destruct (py_strip_infix x) as (pre & post & Ex). rewrite Ex in H.
    intros Hin. apply H. apply in_or_app. right. apply in_or_app. left. exact Hin.
Qed.

Lemma mem_In (l : string) (xs : list string) : mem l xs = true <-> In l xs.
Proof.
  unfold mem. rewrite existsb_exists. split.
  - intros (y & Hy & E). apply String.eqb_eq in E. subst. exact Hy.
  - intros H. exists l. split; [exact H | apply String.eqb_refl].
Qed.

Lemma set_add_In (x l : string) (xs : list string) :
  In x (set_add l xs) <-> x = l \/ In x xs.
Proof.
  unfold set_add. destruct (mem l xs) eqn:E.
  - apply mem_In in E. split; [intros H; right; exact H | intros [-> | H]; assumption].
  - rewrite in_app_iff. simpl. split.
    + intros [H | [H | []]]; [right; exact H | left; symmetry; exact H].
    + intros [-> | H]; [right; left; reflexivity | left; exact H].
Qed.

Lemma set_add_NoDup (l : string) (xs : list string) : NoDup xs -> NoDup (set_add l xs).
Proof.
  unfold set_add. destruct (mem l xs) eqn:E; intros H; [exact H|].
  apply NoDup_app. split; [exact H|]. split; [|apply NoDup_singleton].
  intros x Hx Hl. apply list_elem_of_singleton in Hl. subst x.
  apply list_elem_of_In, mem_In in Hx. congruence.
Qed.

Lemma detect_fold (segs : list Segment) (acc : list string) (x : string) :
  In x (fold_left (fun langs seg =>
    let t := seg_text seg in
    let langs := if has_block 180 181 t then set_add "ml" langs else langs in
    let langs := if has_block 164 165 t then set_add "hi" langs else langs in
    if has_block 174 175 t then set_add "ta" langs else langs) segs acc)
  <-> In x acc \/ Exists (script_hit x) segs.
Proof.
  revert acc. induction segs as [|seg segs IH]; intro acc; simpl.
  - split; [intros H; left; exact H | intros [H | H]; [exact H | inversion H]].
  - rewrite IH, Exists_cons. unfold script_hit.
    destruct (has_block 180 181 (seg_text seg)), (has_block 164 165 (seg_text seg)),
      (has_block 174 175 (seg_text seg)); rewrite ?set_add_In;
      split; intros; repeat match goal with H : _ \/ _ |- _ => destruct H | H : _ /\ _ |- _ => destruct H end;
      subst; try discriminate; tauto.
Qed.

Lemma detect_fold_NoDup (segs : list Segment) (acc : list string) :
  NoDup acc ->
  NoDup (fold_left (fun langs seg =>
    let t := seg_text seg in
    let langs := if has_block 180 181 t then set_add "ml" langs else langs in
    let langs := if has_block 164 165 t then set_add "hi" langs else langs in
    if has_block 174 175 t then set_add "ta" langs else langs) segs acc).
Proof.
  revert acc. induction segs as [|seg segs IH]; intros acc H; simpl; [exact H|].
  apply IH.
  destruct (has_block 180 181 (seg_text seg)), (has_block 164 165 (seg_text seg)),
    (has_block 174 175 (seg_text seg)); repeat apply set_add_NoDup; exact H.
Qed.

(** X3: [detect_mixed_languages] returns a list without duplicates that
    holds the detected language; any other member is ml, hi or ta, and is
    present exactly when some segment's text holds a character of that
    language's script block. *)
Theorem detect_mixed_languages_spec (detected : string) (segs : list Segment) :
  NoDup (detect_mixed_languages detected segs) /\
  In detected (detect_mixed_languages detected segs) /\
  (forall x, In x (detect_mixed_languages detected segs) ->
     x = detected \/ x = "ml" \/ x = "hi" \/ x = "ta") /\
  (forall x, x <> detected ->
     In x (detect_mixed_languages detected segs) <-> Exists (script_hit x) segs).
Proof.
  unfold detect_mixed_languages. split; [apply detect_fold_NoDup, NoDup_singleton|].
  split; [apply detect_fold; left; left; reflexivity|].
  split.
  - intros x Hx. apply detect_fold in Hx as [[-> | []] | Hx]; [left; reflexivity|].
    right. apply Exists_exists in Hx as (seg & _ & Hs). unfold script_hit in Hs. tauto.
  - intros x Hx. rewrite detect_fold. simpl.
    split; [intros [[E | []] | H]; [congruence | exact H] | intros H; right; exact H].
Qed.

End TargetsAndScripts.

(* ------------------------------------------------------------------ *)
(** ** Properties of the model caches *)

Section CacheProperties.
Local Close Scope Q_scope.

Section TokenizerProofs.

Variable coqui_load : option Handle.
Variable mms_tokenizer_load mms_model_load marian_load : string -> option Handle.

Lemma tokenizer_ready_init : tokenizer_ready caches_init.
Proof. intros l h _ H. simpl in H. rewrite lookup_empty in H. discriminate. Qed.

Lemma serve_tokenizer_ready (st : Caches) (r : Request) :
  tokenizer_ready st ->
  tokenizer_ready (snd (serve coqui_load mms_tokenizer_load mms_model_load marian_load st r)).
Proof.
  intros Hinv. destruct r as [l' | s t]; simpl.
  - unfold get_tts_model_for_language.
    destruct (String.eqb l' "en").
    + simpl. destruct (tts_models st !! "en_tts"); [exact Hinv|].
      intros l h Hl H. simpl in *.
      destruct Hl as [-> | [-> | ->]]; simpl in *;
        rewrite lookup_insert_ne in H by discriminate;
        rewrite lookup_insert_ne by discriminate; (eapply Hinv; [unfold mms_lang; tauto | exact H]).
    + destruct (mms_model_name l') as [name|] eqn:Em; [|exact Hinv]. simpl.
      apply mms_model_name_some in Em.
      destruct (tts_models st !! (l' +:+ "_tts")); [exact Hinv|].
      intros l h Hl H.
      destruct (mms_tokenizer_load name) as [tok|]; simpl in *.
      * destruct (String.eqb l l') eqn:Ell.
        -- apply String.eqb_eq in Ell. subst l'.
           destruct Hl as [-> | [-> | ->]]; simpl in *;
             rewrite lookup_insert_ne by discriminate; rewrite lookup_insert_eq; eauto.
        -- apply String.eqb_neq in Ell.
           destruct Hl as [-> | [-> | ->]], Em as [-> | [-> | ->]]; try congruence; simpl in *;
             rewrite !lookup_insert_ne in H by discriminate;
             rewrite !lookup_insert_ne by discriminate;
             (eapply Hinv; [unfold mms_lang; tauto | exact H]).
      * destruct (String.eqb l l') eqn:Ell.
        -- apply String.eqb_eq in Ell. subst l'.
           rewrite lookup_insert_eq in H. discriminate.
        -- apply String.eqb_neq in Ell.
           destruct Hl as [-> | [-> | ->]], Em as [-> | [-> | ->]]; try congruence; simpl in *;
             rewrite !lookup_insert_ne in H by discriminate;
             rewrite !lookup_insert_ne by discriminate;
             (eapply Hinv; [unfold mms_lang; tauto | exact H]).
  - unfold get_translation_model. simpl.
    destruct (translation_models st !! (s +:+ "_to_" +:+ t)); [exact Hinv|].
    destruct (marian_model_name s t); exact Hinv.
Qed.

Lemma serve_all_tokenizer_ready (st : Caches) (rs : list Request) :
  tokenizer_ready st ->
  tokenizer_ready (serve_all coqui_load mms_tokenizer_load mms_model_load marian_load st rs).
Proof.
  revert st. induction rs as [|r rs IH]; intros st H; simpl; [exact H|].
  apply IH, serve_tokenizer_ready, H.
Qed.

End TokenizerProofs.

(** X4: after any sequence of cache requests, whenever
    [get_tts_model_for_language] hands out an MMS model for ml, hi or ta,
    the tokenizer that [generate_tts_with_model] looks up for that language
    is cached too. *)
Theorem mms_model_has_tokenizer (coqui_load : option Handle)
    (mms_tokenizer_load mms_model_load marian_load : string -> option Handle)
    (rs : list Request) (l : string) (m : Handle) (st' : Caches) :
  mms_lang l ->
  get_tts_model_for_language coqui_load mms_tokenizer_load mms_model_load
    (serve_all coqui_load mms_tokenizer_load mms_model_load marian_load caches_init rs) l
    = (Some m, st') ->
  exists t, tts_models st' !! (l +:+ "_tokenizer") = Some (Some t).
Proof.
  intros Hl Hg.
  pose proof (serve_tokenizer_ready coqui_load mms_tokenizer_load mms_model_load marian_load
                _ (TtsReq l)
                (serve_all_tokenizer_ready coqui_load mms_tokenizer_load mms_model_load
                   marian_load caches_init rs tokenizer_ready_init)) as Hinv.
  simpl in Hinv. rewrite Hg in Hinv. simpl in Hinv.
  apply (Hinv l m Hl).
  assert (Hne : String.eqb l "en" = false) by (destruct Hl as [-> | [-> | ->]]; reflexivity).
  unfold get_tts_model_for_language in Hg. rewrite Hne in Hg.
  destruct (mms_model_name l); [|discriminate].
  injection Hg as Hd <-. unfold dict_get in Hd.
  destruct (tts_models _ !! _) as [[v|]|]; congruence.
Qed.

Lemma mms_model_has_tokenizer_witness :
  exists t, tts_models (snd (get_tts_model_for_language (Some 1%nat) (fun _ => Some 2%nat)
                               (fun _ => Some 3%nat) caches_init "ml"))
              !! ("ml" +:+ "_tokenizer") = Some (Some t).
Proof.
  apply (mms_model_has_tokenizer (Some 1%nat) (fun _ => Some 2%nat) (fun _ => Some 3%nat)
           (fun _ => Some 4%nat) [] "ml" 3%nat); [left; reflexivity | reflexivity].
Defined.

Lemma marian_model_name_some (s t name : string) :
  marian_model_name s t = Some name -> s = "en" /\ mms_lang t.
Proof.
  unfold marian_model_name.
  destruct (String.eqb s "en") eqn:Es; [apply String.eqb_eq in Es|discriminate].
  unfold mms_lang.
  destruct (String.eqb t "ml") eqn:E1; [apply String.eqb_eq in E1; auto|].
  destruct (String.eqb t "hi") eqn:E2; [apply String.eqb_eq in E2; auto|].
  destruct (String.eqb t "ta") eqn:E3; [apply String.eqb_eq in E3; auto|].
  discriminate.
Qed.

(** X5: a TTS request for a language other than en, ml, hi and ta returns
    no model and leaves the caches unchanged; a translation request for a
    pair other than English to ml, hi or ta loads nothing, and on a fresh
    pair it returns no model and caches the failure sentinel. *)
Theorem unsupported_never_loaded (coqui_load : option Handle)
    (mms_tokenizer_load mms_model_load marian_load : string -> option Handle)
    (st : Caches) :
  (forall l, l <> "en" -> ~ mms_lang l ->
     get_tts_model_for_language coqui_load mms_tokenizer_load mms_model_load st l = (None, st)) /\
  (forall s t, ~ (s = "en" /\ mms_lang t) ->
     load_log (snd (get_translation_model marian_load st s t)) = load_log st /\
     (translation_models st !! (s +:+ "_to_" +:+ t) = None ->
        get_translation_model marian_load st s t
        = (None, set_mt st (s +:+ "_to_" +:+ t) None))).
Proof.
  split.
  - intros l Hen Hm. unfold get_tts_model_for_language.
    apply String.eqb_neq in Hen. rewrite Hen.
    destruct (mms_model_name l) as [name|] eqn:E; [|reflexivity].
    exfalso. apply Hm. exact (mms_model_name_some _ _ E).
  - intros s t Hst. unfold get_translation_model.
    assert (Hn : marian_model_name s t = None).
    { destruct (marian_model_name s t) as [name|] eqn:E; [|reflexivity].
      exfalso. exact (Hst (marian_model_name_some _ _ _ E)). }
    rewrite Hn.
    destruct (translation_models st !! (s +:+ "_to_" +:+ t)) as [v|] eqn:Hk.
    + split; [reflexivity | discriminate].
    + split; [reflexivity|]. intros _. unfold dict_get. simpl.
      rewrite lookup_insert_eq. reflexivity.
Qed.

Lemma unsupported_never_loaded_witness :
  get_translation_model (fun _ => Some 4%nat) caches_init "ml" "en"
    = (None, set_mt caches_init ("ml" +:+ "_to_" +:+ "en") None).
Proof.
  destruct (unsupported_never_loaded (Some 1%nat) (fun _ => Some 2%nat) (fun _ => Some 3%nat)
              (fun _ => Some 4%nat) caches_init) as [_ H].
  apply (H "ml" "en"); [intros [E _]; discriminate E | reflexivity].
Defined.

End CacheProperties.

(* ------------------------------------------------------------------ *)
(** ** Properties of TTS, speed adjustment, translation and the clip loop *)

Section ClipProperties.
Local Open Scope Q_scope.

Lemma fs_write_other (fs : FS) (p q : Path) (a : Audio) :
  q <> p -> fs_write fs p a q = fs q.
Proof. intros H. unfold fs_write. destruct (decide (q = p)); [contradiction | reflexivity]. Qed.

Lemma fs_write_same (fs : FS) (p : Path) (a : Audio) : fs_write fs p a p = Some a.
Proof. unfold fs_write. destruct (decide (p = p)); [reflexivity | contradiction]. Qed.

Lemma generate_tts_frame_aux (w : World) (st : Caches) (fs : FS) (text : string)
    (out : Path) (lang : string) (model : option Handle) :
  ((stripped_len text < 2)%nat ->
     generate_tts_with_model w st fs text out lang model = (false, fs)) /\
  (forall fs', generate_tts_with_model w st fs text out lang model = (false, fs') -> fs' = fs) /\
  (forall fs', generate_tts_with_model w st fs text out lang model = (true, fs') ->
     (exists a, fs' out = Some a) /\ forall p, p <> out -> fs' p = fs p).
Proof.
  unfold generate_tts_with_model. split; [|split].
  - intros H. apply Nat.ltb_lt in H. rewrite H, orb_true_r. reflexivity.
  - intros fs'. destruct (_ || _); [congruence|].
    destruct (if String.eqb lang "en" then _ else _); congruence.
  - intros fs'. destruct (_ || _); [congruence|].
    destruct (if String.eqb lang "en" then _ else _) as [a|]; [|congruence].
    intros E. injection E as <-. split; [exists a; apply fs_write_same|].
    intros p Hp. apply fs_write_other, Hp.
Qed.

(** X7: with distinct input and output paths, [adjust_audio_speed] raises
    exactly when the input file is missing; otherwise it touches only the
    output path, which is left as it was or receives the input clip with at
    most two [atempo] factors appended. *)
Theorem adjust_audio_speed_frame (pf : Audio -> bool) (mf : Audio -> list Q -> bool)
    (fs : FS) (input output : Path) (target : Q) :
  input <> output ->
  (adjust_audio_speed pf mf fs input output target = None <-> fs input = None) /\
  (forall a fs', fs input = Some a ->
     adjust_audio_speed pf mf fs input output target = Some fs' ->
     (forall p, p <> output -> fs' p = fs p) /\
     (fs' output = fs output \/
      exists chain, (length chain <= 2)%nat /\
                    fs' output = Some (mkAudio (a_len a) (a_tempo a ++ chain)%list))).
Proof.
  intros Hio. split.
  - unfold adjust_audio_speed. destruct (fs input) as [a|]; [|tauto].
    split; [|discriminate].
    destruct (pf a); [discriminate|].
    destruct (_ || _); [discriminate|]. destruct (mf a _); discriminate.
  - intros a fs' Ha H. split.
    + intros p Hp. exact (adjust_audio_speed_other_paths _ _ _ _ _ _ _ _ H Hp).
    + unfold adjust_audio_speed in H. rewrite Ha in H.
      assert (Hcopy : fs' = fs_write fs output a ->
                      fs' output = fs output \/
                      exists chain, (length chain <= 2)%nat /\
                        fs' output = Some (mkAudio (a_len a) (a_tempo a ++ chain)%list)).
      { intros ->. right. exists []. split; [simpl; lia|].
        rewrite fs_write_same, app_nil_r. destruct a; reflexivity. }
      destruct (pf a); [injection H as <-; apply Hcopy; reflexivity|].
      destruct (_ || _); [injection H as <-; apply Hcopy; reflexivity|].
      destruct (mf a _); injection H as <-; [left; reflexivity|].
      right. eexists. split; [|rewrite fs_write_same; reflexivity].
      unfold atempo_chain. destruct (qlt 2 _); simpl; lia.
Qed.

Lemma adjust_audio_speed_frame_witness :
  (adjust_audio_speed never_fails1 never_fails2 fs_empty raw0 adj0 2 = None <->
   fs_empty raw0 = None).
Proof.
  destruct (adjust_audio_speed_frame never_fails1 never_fails2 fs_empty raw0 adj0 2
              ltac:(discriminate)) as [H _].
  exact H.
Defined.

(** X8: translating from English to another language keeps the number of
    segments and each segment's start and end; a segment whose text
    consists of ASCII whitespace only (or is empty) is passed through
    unchanged. *)
Theorem translate_segments_keeps_timing (w : World) (st : Caches) (wen segs : list Segment)
    (tgt : string) :
  tgt <> "en" ->
  Forall2 (fun s s' => seg_start s' = seg_start s /\ seg_end s' = seg_end s /\
                       (Forall (fun c => Sanitizer.is_space c = true) (list_ascii_of_string (seg_text s)) ->
                        s' = s))
    segs (fst (translate_segments w st wen segs "en" tgt)).
Proof.
  intros Ht. unfold translate_segments.
  apply String.eqb_neq in Ht. rewrite Ht.
  change (String.eqb "en" "en") with true. cbn [andb negb].
  assert (Hid : Forall2 (fun s s' => seg_start s' = seg_start s /\ seg_end s' = seg_end s /\
                       (Forall (fun c => Sanitizer.is_space c = true) (list_ascii_of_string (seg_text s)) ->
                        s' = s)) segs segs).
  { induction segs; constructor; auto. }
  destruct (get_translation_model (w_marian_load w) st "en" tgt) as [[h|] st']; [|exact Hid].
  simpl. clear Hid. induction segs as [|s segs IH]; simpl; constructor; [|exact IH].
  destruct (String.length (Sanitizer.py_strip (seg_text s)) =? 0)%nat eqn:E.
  - auto.
  - destruct (w_marian_translate w h _); [|auto].
    simpl. split; [reflexivity|]. split; [reflexivity|].
    intros H. rewrite (blank_strip_empty _ H) in E. discriminate.
Qed.

Lemma translate_segments_keeps_timing_witness :
  Forall2 (fun s s' => seg_start s' = seg_start s /\ seg_end s' = seg_end s /\
                       (Forall (fun c => Sanitizer.is_space c = true) (list_ascii_of_string (seg_text s)) ->
                        s' = s))
    [mkSeg 0 2 "hello"; mkSeg 2 3 "  "]
    (fst (translate_segments demo_world caches_init [] [mkSeg 0 2 "hello"; mkSeg 2 3 "  "] "en" "ml")).
Proof. apply translate_segments_keeps_timing. discriminate. Defined.

Lemma dub_segment_step (w : World) (lang : string) (model : option Handle) (st : Caches)
    (i : nat) (seg : Segment) (fs fs2 : FS) (out out2 : list TtsSeg) :
  dub_segment w lang model st i seg (fs, out) = Some (fs2, out2) ->
  (forall p, p <> RawClip lang i -> p <> AdjClip lang i -> fs2 p = fs p) /\
  (out2 = out \/
   exists e, out2 = (out ++ [e])%list /\ ts_index e = i /\
     ts_start e = seg_start seg /\ ts_end e = seg_end seg /\
     ts_text e = Sanitizer.clean_translation_text (seg_text seg) /\ ts_text e <> "" /\
     (ts_file e = RawClip lang i \/ ts_file e = AdjClip lang i) /\
     exists_ fs2 (ts_file e) = true).
Proof.
  unfold dub_segment. intros H.
  destruct (_ || _).
  { injection H as <- <-. split; [reflexivity | left; reflexivity]. }
  destruct (String.length (Sanitizer.clean_translation_text (seg_text seg)) =? 0)%nat eqn:Ee.
  { injection H as <- <-. split; [reflexivity | left; reflexivity]. }
  set (text := Sanitizer.clean_translation_text (seg_text seg)) in *.
  destruct (generate_tts_frame_aux w st fs text (RawClip lang i) lang model) as (_ & Hf & Ht).
  destruct (generate_tts_with_model w st fs text (RawClip lang i) lang model) as [ok fs1] eqn:Eg.
  assert (Hfs1 : forall p, p <> RawClip lang i -> fs1 p = fs p).
  { destruct ok; [apply (Ht fs1 eq_refl) | rewrite (Hf fs1 eq_refl); reflexivity]. }
  destruct (ok && exists_ fs1 (RawClip lang i)) eqn:Eok.
  - apply andb_true_iff in Eok as [_ Hraw].
    destruct (adjust_audio_speed _ _ fs1 (RawClip lang i) (AdjClip lang i) _) as [fs3|] eqn:Ea;
      [|discriminate].
    injection H as <- <-.
    assert (Hfs3 : forall p, p <> AdjClip lang i -> fs3 p = fs1 p)
      by (intros p Hp; exact (adjust_audio_speed_other_paths _ _ _ _ _ _ _ _ Ea Hp)).
    split.
    + intros p H1 H2. rewrite Hfs3 by exact H2. apply Hfs1, H1.
    + right. eexists. split; [reflexivity|]. simpl.
      split; [reflexivity|]. split; [reflexivity|]. split; [reflexivity|].
      split; [reflexivity|].
      split; [intros E; rewrite E in Ee; discriminate|].
      destruct (exists_ fs3 (AdjClip lang i)) eqn:Eadj.
      * split; [right; reflexivity | exact Eadj].
      * split; [left; reflexivity|].
        unfold exists_ in *. rewrite Hfs3 by discriminate. exact Hraw.
  - injection H as <- <-. split; [|left; reflexivity].
    intros p H1 _. apply Hfs1, H1.
Qed.

Lemma StronglySorted_snoc (l : list nat) (x : nat) :
  StronglySorted lt l -> Forall (fun y => (y < x)%nat) l -> StronglySorted lt (l ++ [x])%list.
Proof.
  induction l as [|y l IH]; intros Hs Hf; simpl.
  - repeat constructor.
  - inversion Hs as [|? ? Hs' Hy]; subst. inversion Hf as [|? ? Hyx Hf']; subst.
    constructor; [apply IH; assumption|].
    apply List.Forall_app. split; [exact Hy | constructor; [exact Hyx | constructor]].
Qed.

Lemma dub_segments_inv (w : World) (lang : string) (model : option Handle) (st : Caches)
    (segs0 : list Segment) :
  forall segs i fs out fs' out',
  skipn i segs0 = segs ->
  Forall (fun e => (ts_index e < i)%nat /\ clip_ok lang segs0 fs e) out ->
  StronglySorted lt (map ts_index out) ->
  dub_segments w lang model st i segs (fs, out) = Some (fs', out') ->
  Forall (clip_ok lang segs0 fs') out' /\ StronglySorted lt (map ts_index out').
Proof.
  induction segs as [|seg segs IH]; intros i fs out fs' out' Hskip Hinv Hs H; cbn [dub_segments] in H.
  - injection H as <- <-. split; [|exact Hs].
    eapply List.Forall_impl; [|exact Hinv]. intros e [_ He]. exact He.
  - destruct (dub_segment w lang model st i seg (fs, out)) as [[fs2 out2]|] eqn:Ed;
      [|discriminate H].
    assert (Hnth : nth_error segs0 i = Some seg).
    { clear -Hskip. revert segs0 Hskip. induction i as [|i IHi]; intros [|x l] Hk;
        simpl in *; try discriminate; [injection Hk as -> ->; reflexivity | apply IHi, Hk]. }
    assert (Hskip' : skipn (S i) segs0 = segs).
    { clear -Hskip. revert segs0 Hskip. induction i as [|i IHi]; intros [|x l] Hk;
        simpl in *; try discriminate; [injection Hk as -> ->; reflexivity | apply IHi, Hk]. }
    destruct (dub_segment_step w lang model st i seg fs fs2 out out2 Ed) as [Hfr Hout].
    apply (IH (S i) fs2 out2 fs' out' Hskip'); [| |exact H].
    + assert (Hold : Forall (fun e => (ts_index e < S i)%nat /\ clip_ok lang segs0 fs2 e) out).
      { eapply List.Forall_impl; [|exact Hinv]. intros e [Hlt (sg & H1 & H2 & H3 & H4 & H5 & H6 & H7)].
        split; [lia|]. exists sg. do 6 (split; [assumption|]).
        unfold exists_ in *. rewrite Hfr; [exact H7| |];
          destruct H6 as [-> | ->]; intros E; (discriminate E || (injection E; lia)). }
      destruct Hout as [-> | (e & -> & Hi & H1 & H2 & H3 & H4 & H5 & H6)]; [exact Hold|].
      apply List.Forall_app. split; [exact Hold|]. constructor; [|constructor].
      split; [lia|]. exists seg. rewrite Hi. split; [exact Hnth|].
      do 4 (split; [assumption|]). split; [exact H5 | exact H6].
    + destruct Hout as [-> | (e & -> & Hi & _)]; [exact Hs|].
      rewrite map_app. simpl. apply StronglySorted_snoc; [exact Hs|].
      rewrite Hi. apply List.Forall_map. eapply List.Forall_impl; [|exact Hinv]. intros x [Hx _]. exact Hx.
Qed.

(** X9: the clip list built by the segment loop of [create_dub_track] has
    strictly increasing segment indices; each entry carries its segment's
    timing and non-empty cleaned text, and names an existing raw or adjusted
    clip of its own index and language. *)
Theorem dub_segments_clips (w : World) (lang : string) (model : option Handle) (st : Caches)
    (segs : list Segment) (fs fs' : FS) (out : list TtsSeg) :
  dub_segments w lang model st 0 segs (fs, []) = Some (fs', out) ->
  StronglySorted lt (map ts_index out) /\
  Forall (fun e => exists seg, nth_error segs (ts_index e) = Some seg /\
            ts_start e = seg_start seg /\ ts_end e = seg_end seg /\
            ts_text e = Sanitizer.clean_translation_text (seg_text seg) /\ ts_text e <> "" /\
            (ts_file e = RawClip lang (ts_index e) \/ ts_file e = AdjClip lang (ts_index e)) /\
            exists_ fs' (ts_file e) = true) out.
Proof.
  intros H.
  destruct (dub_segments_inv w lang model st segs segs 0 fs [] fs' out eq_refl
              (List.Forall_nil _) (SSorted_nil _) H) as [H1 H2].
  split; [exact H2 | exact H1].
Qed.

Lemma dub_segments_clips_witness :
  exists fs' out,
    dub_segments demo_world "en" None caches_init 0 [mkSeg 0 2 "hello"; mkSeg 2 3 "ok"]
      (fs_empty, []) = Some (fs', out) /\
    StronglySorted lt (map ts_index out).
Proof.
  destruct (dub_segments demo_world "en" None caches_init 0 [mkSeg 0 2 "hello"; mkSeg 2 3 "ok"]
              (fs_empty, [])) as [[fs' out]|] eqn:E.
  - exists fs', out. split; [reflexivity|].
    exact (proj1 (dub_segments_clips demo_world "en" None caches_init
                    [mkSeg 0 2 "hello"; mkSeg 2 3 "ok"] fs_empty fs' out E)).
  - vm_compute in E. discriminate E.
Defined.

End ClipProperties.

(* ------------------------------------------------------------------ *)
(** ** Properties of [main] and [merge_with_timing] *)

Section RunProperties.
Local Close Scope Q_scope.

Lemma dub_targets_tracks (w : World) (detected : string) (wen base : list Segment) (total : Q)
    (langs : list string) :
  forall st fs tracks st' fs' tracks',
  dub_targets w detected wen base total langs (st, fs, tracks) = Some (st', fs', tracks') ->
  exists new, tracks' = (tracks ++ new)%list /\
    (forall x, In x (map tr_lang new) -> In x langs /\ x <> "en") /\
    (NoDup langs -> NoDup (map tr_lang new)).
Proof.
  induction langs as [|l langs IH]; intros st fs tracks st' fs' tracks' H; cbn [dub_targets] in H.
  - injection H as _ _ <-. exists []. rewrite app_nil_r.
    split; [reflexivity|]. split; [intros x []|intros _; constructor].
  - destruct (dub_target w detected wen base total l (st, fs, tracks))
      as [[[st1 fs1] tracks1]|] eqn:Ed; [|discriminate H].
    destruct (IH _ _ _ _ _ _ H) as (new & -> & Hin & Hnd).
    unfold dub_target in Ed.
    destruct (String.eqb l "en") eqn:Een.
    { injection Ed as <- <- <-. exists new. split; [reflexivity|].
      split; [intros x Hx; destruct (Hin x Hx); split; [right|]; assumption|].
      intros Hl. apply Hnd. apply NoDup_cons in Hl as [_ Hl]. exact Hl. }
    destruct (String.eqb detected l).
    { injection Ed as <- <- <-. exists new. split; [reflexivity|].
      split; [intros x Hx; destruct (Hin x Hx); split; [right|]; assumption|].
      intros Hl. apply Hnd. apply NoDup_cons in Hl as [_ Hl]. exact Hl. }
    destruct (translate_segments w st wen base "en" l) as [tr st2].
    destruct (create_dub_track w st2 fs tr l total) as [[[[f|] fs3] st3]|]; [| |discriminate].
    + injection Ed as <- <- <-.
      exists (mkTrack (Some f) (language_name l +:+ " (AI Dubbed)") l :: new).
      rewrite <- app_assoc. split; [reflexivity|]. split.
      * intros x [<- | Hx]; [split; [left; reflexivity | apply String.eqb_neq, Een]|].
        destruct (Hin x Hx). split; [right|]; assumption.
      * intros Hl. apply NoDup_cons in Hl as [Hl1 Hl2]. simpl. constructor; [|exact (Hnd Hl2)].
        intros Hx. apply list_elem_of_In in Hx. apply Hl1, list_elem_of_In, Hin, Hx.
    + injection Ed as <- <- <-. exists new. split; [reflexivity|].
      split; [intros x Hx; destruct (Hin x Hx); split; [right|]; assumption|].
      intros Hl. apply Hnd. apply NoDup_cons in Hl as [_ Hl]. exact Hl.
Qed.

Lemma targets_spec (srcs : list string) (x : string) :
  In x (filter (fun l => negb (mem l srcs)) SUPPORTED_LANGUAGES) <->
  In x SUPPORTED_LANGUAGES /\ ~ In x srcs.
Proof.
  rewrite <- list_elem_of_In, list_elem_of_filter, list_elem_of_In.
  destruct (mem x srcs) eqn:E; simpl.
  - split; [intros [[] _]|]. intros [_ Hn]. exfalso. apply Hn, mem_In, E.
  - split.
    + intros [_ HP]. split; [exact HP|]. intros Hx. apply mem_In in Hx. congruence.
    + intros [HP _]. split; [exact I | exact HP].
Qed.

(** X10: with [--all_dubs], a completed run's manifest lists the original
    track first, then dubbed tracks for distinct supported languages, none of
    which is a detected source language. *)
Theorem main_all_dubs_tracks (w : World) (env : RunEnv) (args : Args) (m : Manifest) :
  arg_all_dubs args = true ->
  main w env args = Done m ->
  exists rest,
    audio_tracks m = ("Original (" +:+ language_name (source_language m) +:+ ")",
                      source_language m) :: rest /\
    NoDup (map snd rest) /\
    Forall (fun p => In (snd p) SUPPORTED_LANGUAGES /\ ~ In (snd p) (source_languages m)) rest.
Proof.
  intros Hall H. unfold main in H. cbv zeta in H.
  destruct (env_input_exists env); [|discriminate H]. cbn [negb] in H.
  destruct (env_extract_ok env); [|discriminate H]. cbn [negb] in H.
  destruct (env_transcribe env) as [[d segs]|]; [|discriminate H].
  rewrite Hall in H. cbn [orb] in H.
  set (srcs := detect_mixed_languages d segs) in H.
  set (targets := filter (fun l => negb (mem l srcs)) SUPPORTED_LANGUAGES) in H.
  assert (Htg : forall x, In x targets <-> In x SUPPORTED_LANGUAGES /\ ~ In x srcs)
    by (intro x; apply targets_spec).
  assert (Hnd : NoDup targets) by (apply NoDup_filter; repeat constructor; set_solver).
  set (orig := mkTrack None _ d) in H.
  destruct (env_copy_ok env); [|discriminate H]. cbn [negb] in H.
  match type of H with
  | context [match ?x with Some segments_english => _ | None => Exit 1 end] =>
      destruct x as [se|]; [|discriminate H]
  end.
  match type of H with
  | context [match ?x with Some acc => _ | None => Exit 1 end] =>
      destruct x as [[[st0 fs0] tr0]|] eqn:Een; [|discriminate H]
  end.
  match type of H with
  | context [dub_targets w d ?a ?b ?c ?e (st0, fs0, tr0)] =>
      destruct (dub_targets w d a b c e (st0, fs0, tr0)) as [[[st1 fs1] tr1]|] eqn:Ed;
        [|discriminate H]
  end.
  destruct (arg_embed_tracks args && _ && env_embed_raises env); [discriminate H|].
  destruct (env_manifest_ok env); [|discriminate H].
  injection H as <-. simpl.
  destruct (dub_targets_tracks _ _ _ _ _ _ _ _ _ _ _ _ Ed) as (new & -> & Hin & Hnew).
  set (g := fun t : Track => (tr_name t, tr_lang t)).
  assert (Hsnd : forall l, map snd (map g l) = map tr_lang l)
    by (intro l; rewrite map_map; reflexivity).
  assert (Hnew_ok : Forall (fun t => In (tr_lang t) SUPPORTED_LANGUAGES /\ ~ In (tr_lang t) srcs) new).
  { apply List.Forall_forall. intros t Ht. apply Htg, Hin, in_map, Ht. }
  destruct (mem "en" targets) eqn:Em.
  - match type of Een with
    | context [create_dub_track ?a ?b ?c ?e ?f ?h] =>
        destruct (create_dub_track a b c e f h) as [[[[f'|] fs2] st2]|]; [| |discriminate Een]
    end; injection Een as _ _ <-.
    + exists (map g (mkTrack (Some f') "English (AI Dubbed)" "en" :: new)).
      split; [reflexivity|]. rewrite Hsnd, List.Forall_map.
      apply mem_In, Htg in Em.
      split.
      * cbn [map tr_lang]. constructor; [|exact (Hnew Hnd)].
        intros Hx. apply list_elem_of_In in Hx. destruct (Hin _ Hx) as [_ Hx']. apply Hx'. reflexivity.
      * constructor; [exact Em|]. exact Hnew_ok.
    + exists (map g new). split; [reflexivity|]. rewrite Hsnd, List.Forall_map.
      split; [exact (Hnew Hnd) | exact Hnew_ok].
  - injection Een as _ _ <-.
    exists (map g new). split; [reflexivity|]. rewrite Hsnd, List.Forall_map.
    split; [exact (Hnew Hnd) | exact Hnew_ok].
Qed.

Lemma main_all_dubs_tracks_witness :
  exists m, main demo_world (demo_env (Some 10%Q)) (mkArgs "" true false) = Done m /\
  exists rest,
    audio_tracks m = ("Original (" +:+ language_name (source_language m) +:+ ")",
                      source_language m) :: rest /\
    NoDup (map snd rest) /\
    Forall (fun p => In (snd p) SUPPORTED_LANGUAGES /\ ~ In (snd p) (source_languages m)) rest.
Proof.
  destruct (main demo_world (demo_env (Some 10%Q)) (mkArgs "" true false)) as [c|m] eqn:E;
    [vm_compute in E; discriminate E|].
  exists m. split; [reflexivity|].
  exact (main_all_dubs_tracks demo_world (demo_env (Some 10%Q)) (mkArgs "" true false) m eq_refl E).
Defined.

End RunProperties.

(* ------------------------------------------------------------------ *)
(** ** Properties of the transcript of [dub_to_english.py] *)

Section TranscriptProperties.
Local Close Scope Q_scope.

Lemma single_spaced_app (x y : list ascii) :
  single_spaced x -> single_spaced y ->
  (forall l1 c d l2, x = (l1 ++ [c])%list -> y = d :: l2 ->
     Sanitizer.is_space c = false \/ Sanitizer.is_space d = false) ->
  single_spaced (x ++ y)%list.
Proof.
  intros [X1 X2] [Y1 Y2] B. split.
  - intros c Hc. apply in_app_or in Hc as [Hc|Hc]; [apply X1 | apply Y1]; exact Hc.
  - intros l1 l2 c d E.
    destruct (app_eq_app x y l1 (c :: d :: l2) E) as [m [[Ex Ey] | [El Ey]]].
    + destruct m as [|c' [|d' m]].
      * rewrite app_nil_r in Ex. simpl in Ey. subst x.
        apply (Y2 [] l2 c d). symmetry. exact Ey.
      * simpl in Ey. injection Ey as Hc Ey. subst c'. apply (B l1 c d l2); [exact Ex | symmetry; exact Ey].
      * simpl in Ey. injection Ey as Hc Hd Ey. subst c' d'. apply (X2 l1 m c d). exact Ex.
    + subst l1. rewrite <- app_assoc in E. apply app_inv_head in E. apply (Y2 m l2 c d). exact E.
Qed.

Lemma transcript_piece_join (x y : list ascii) :
  transcript_piece x -> transcript_piece y -> transcript_piece (x ++ " "%char :: y)%list.
Proof.
  intros (Sx & (c & r & Hx & Hc1 & Hc2) & (rx & dx & Hxd & Hdx))
         (Sy & (cy & ry & Hy & Hcy1 & Hcy2) & (ry' & dy & Hyd & Hdy)).
  split; [|split].
  - apply single_spaced_app; [exact Sx| |].
    + change (" "%char :: y) with ([" "%char] ++ y)%list.
      apply single_spaced_app; [| exact Sy |].
      * split; [intros c0 [<-|[]] _; reflexivity|].
        intros [|? l1] l2 c0 d0 E; [discriminate E|].
        injection E as _ E. destruct l1; discriminate E.
      * intros l1 c0 d0 l2 E1 E2. right. rewrite Hy in E2.
        injection E2 as <- _. exact Hcy1.
    + intros l1 c0 d0 l2 E1 E2. left. rewrite Hxd in E1.
      apply app_inj_tail in E1 as [_ <-]. exact Hdx.
  - exists c, (r ++ " "%char :: y)%list. rewrite Hx. simpl. auto.
  - exists (x ++ " "%char :: ry')%list, dy. split; [|exact Hdy].
    rewrite Hyd, <- app_assoc. reflexivity.
Qed.

Lemma py_join_pieces (l : list string) :
  Forall (fun t => transcript_piece (list_ascii_of_string t)) l ->
  l = [] \/ transcript_piece (list_ascii_of_string (py_join " " l)).
Proof.
  induction l as [|x l IH]; intros H; [left; reflexivity|]. right.
  inversion H as [|? ? Hx Hl]; subst.
  destruct l as [|y l]; [exact Hx|].
  destruct (IH Hl) as [E|P]; [discriminate E|].
  change (py_join " " (x :: y :: l)) with (x +:+ " " +:+ py_join " " (y :: l)).
  rewrite !list_ascii_append. apply transcript_piece_join; assumption.
Qed.

(** X12: the transcript [dub_to_english.py] saves is empty, or it has no
    whitespace other than single plain spaces, neither starts nor ends with
    whitespace, and starts with a character that is not lowercase. *)
Theorem english_transcript_spacing (segs : list Segment) :
  english_transcript segs = "" \/
  (single_spaced (list_ascii_of_string (english_transcript segs)) /\
   (exists c r, list_ascii_of_string (english_transcript segs) = c :: r /\
                Sanitizer.is_space c = false /\ Sanitizer.is_lower c = false) /\
   (exists r d, list_ascii_of_string (english_transcript segs) = (r ++ [d])%list /\
                Sanitizer.is_space d = false)).
Proof.
  unfold english_transcript.
  destruct (py_join_pieces (List.filter (fun t => negb (String.eqb t ""))
                 (map (fun s => Sanitizer.clean_translation_text (seg_text s)) segs)))
    as [E|P].
  - apply List.Forall_forall. intros t Ht.
    apply filter_In in Ht as [Ht Hne]. apply in_map_iff in Ht as (s & <- & _).
    apply negb_true_iff, String.eqb_neq in Hne.
    destruct (clean_ends (seg_text s)) as [E|[H1 H2]].
    + exfalso. apply Hne. rewrite <- (string_of_list_ascii_of_string
        (Sanitizer.clean_translation_text (seg_text s))), E. reflexivity.
    + split; [apply clean_single_spaced | split; assumption].
  - left. rewrite E. reflexivity.
  - right. exact P.
Qed.

End TranscriptProperties.

(* ------------------------------------------------------------------ *)
(** ** Properties of [create_multi_audio_video] *)

Section MultiTrackProperties.
Local Close Scope Q_scope.

Lemma option_pairs_app (a b : list (string * string)) :
  option_pairs (a ++ b) = (option_pairs a ++ option_pairs b)%list.
Proof. unfold option_pairs. rewrite map_app, concat_app. reflexivity. Qed.

Lemma option_pairs_cons (p : string * string) (l : list (string * string)) :
  option_pairs (p :: l) = fst p :: snd p :: option_pairs l.
Proof. reflexivity. Qed.

Lemma map_audio_opts_pairs (i : nat) (ts : list AudioTrack) :
  option_pairs (map_audio_opts i ts) = map_audio_args i ts.
Proof.
  revert i. induction ts as [|t ts IH]; intro i; [reflexivity|].
  cbn [map_audio_opts map_audio_args]. rewrite option_pairs_cons, IH. reflexivity.
Qed.

Lemma metadata_opts_pairs (i : nat) (ts : list AudioTrack) :
  option_pairs (metadata_opts i ts) = metadata_args i ts.
Proof.
  revert i. induction ts as [|t ts IH]; intro i; [reflexivity|].
  cbn [metadata_opts metadata_args]. rewrite !option_pairs_cons, IH. reflexivity.
Qed.

Lemma input_opts_pairs (ts : list AudioTrack) :
  option_pairs (map (fun t => ("-i", at_path t)) ts) = concat (map (fun t => ["-i"; at_path t]) ts).
Proof.
  induction ts as [|t ts IH]; [reflexivity|].
  cbn [map concat]. rewrite option_pairs_cons, IH. reflexivity.
Qed.

Lemma option_values_cons (o : string) (p : string * string) (l : list (string * string)) :
  option_values o (p :: l) =
  if String.eqb (fst p) o then snd p :: option_values o l else option_values o l.
Proof. unfold option_values. simpl. destruct (String.eqb (fst p) o); reflexivity. Qed.

Lemma map_audio_opts_values (o : string) (i : nat) (ts : list AudioTrack) :
  option_values o (map_audio_opts i ts) =
  if String.eqb "-map" o then map (fun k => py_str_nat k +:+ ":a") (seq (S i) (length ts)) else [].
Proof.
  revert i. induction ts as [|t ts IH]; intro i; [destruct (String.eqb "-map" o); reflexivity|].
  cbn [map_audio_opts]. rewrite option_values_cons, IH. cbn [fst snd].
  destruct (String.eqb "-map" o); [|reflexivity].
  rewrite Nat.add_1_r. reflexivity.
Qed.

Lemma input_opts_values (o : string) (ts : list AudioTrack) :
  option_values o (map (fun t => ("-i", at_path t)) ts) =
  if String.eqb "-i" o then map at_path ts else [].
Proof.
  induction ts as [|t ts IH]; [destruct (String.eqb "-i" o); reflexivity|].
  cbn [map]. rewrite option_values_cons, IH. cbn [fst snd].
  destruct (String.eqb "-i" o); reflexivity.
Qed.

Lemma metadata_opts_values_i (i : nat) (ts : list AudioTrack) :
  option_values "-i" (metadata_opts i ts) = [] /\ option_values "-map" (metadata_opts i ts) = [].
Proof.
  revert i. induction ts as [|t ts IH]; intro i; [split; reflexivity|].
  cbn [metadata_opts]. rewrite !option_values_cons. apply IH.
Qed.

Lemma metadata_opts_In (i k : nat) (ts : list AudioTrack) (t : AudioTrack) :
  nth_error ts k = Some t ->
  In ("-metadata:s:a:" +:+ py_str_nat (i + k), "title=" +:+ at_name t) (metadata_opts i ts) /\
  In ("-metadata:s:a:" +:+ py_str_nat (i + k), "language=" +:+ at_lang t) (metadata_opts i ts).
Proof.
  revert i k. induction ts as [|t' ts IH]; intros i [|k] H; try discriminate H.
  - injection H as <-. rewrite Nat.add_0_r. simpl. auto.
  - destruct (IH (S i) k H) as [A B]. rewrite Nat.add_succ_r. simpl. auto.
Qed.

(** X13: the command of [create_multi_audio_video] reads as ffmpeg
    option/value pairs followed by the output path; its inputs are the video
    followed by the tracks' files in order, it maps the video stream and
    audio streams 1 to n of inputs 1 to n, and labels audio stream i with
    the title and language of track i; audio stream 0 is the default. *)
Theorem create_multi_audio_video_streams (input_video output_path : string)
    (audio_tracks : list AudioTrack) :
  exists opts,
    create_multi_audio_video_cmd input_video audio_tracks output_path =
      ("ffmpeg" :: "-y" :: option_pairs opts ++ [output_path])%list /\
    option_values "-i" opts = input_video :: map at_path audio_tracks /\
    option_values "-map" opts =
      "0:v" :: map (fun k => py_str_nat k +:+ ":a") (seq 1 (length audio_tracks)) /\
    (forall i t, nth_error audio_tracks i = Some t ->
       In ("-metadata:s:a:" +:+ py_str_nat i, "title=" +:+ at_name t) opts /\
       In ("-metadata:s:a:" +:+ py_str_nat i, "language=" +:+ at_lang t) opts) /\
    In ("-disposition:a:0", "default") opts.
Proof.
  set (tail := ([("-c:v", "copy"); ("-c:a", "aac"); ("-b:a", "192k")] ++
               metadata_opts 0 audio_tracks ++ [("-disposition:a:0", "default")])%list).
  exists (("-i", input_video) :: map (fun t => ("-i", at_path t)) audio_tracks ++
          ("-map", "0:v") :: map_audio_opts 0 audio_tracks ++ tail)%list.
  assert (Happ : forall o a b, option_values o (a ++ b) = (option_values o a ++ option_values o b)%list).
  { intros o a b. unfold option_values. rewrite List.filter_app, map_app. reflexivity. }
  destruct (metadata_opts_values_i 0 audio_tracks) as [Mi Mm].
  split; [|split; [|split; [|split]]].
  - unfold create_multi_audio_video_cmd, tail.
    rewrite option_pairs_cons, !option_pairs_app, input_opts_pairs, option_pairs_cons,
      !option_pairs_app, map_audio_opts_pairs, metadata_opts_pairs.
    unfold option_pairs. simpl. repeat (rewrite <- app_assoc || rewrite <- app_comm_cons). reflexivity.
  - change (option_values "-i" (("-i", input_video) :: ?r)) with (input_video :: option_values "-i" r).
    f_equal. unfold tail. repeat (rewrite Happ || rewrite option_values_cons).
    rewrite input_opts_values, map_audio_opts_values, Mi.
    simpl. rewrite !app_nil_r. reflexivity.
  - unfold tail. repeat (rewrite Happ || rewrite option_values_cons).
    rewrite input_opts_values, map_audio_opts_values, Mm.
    simpl. rewrite !app_nil_r. reflexivity.
  - intros i t H. destruct (metadata_opts_In 0 i audio_tracks t H) as [A B].
    simpl in A, B. split; right; apply in_or_app; right; right; apply in_or_app; right;
      unfold tail; apply in_or_app; right; apply in_or_app; left; assumption.
  - right. apply in_or_app. right. right. apply in_or_app. right. unfold tail.
    apply in_or_app. right. apply in_or_app. right. left. reflexivity.
Qed.

End MultiTrackProperties.
